(** * Forest MCP client node: the adaptation layer of [nodes/Forest]

    A shallow embedding of [utils.ts], [listSearch.ts], [resourceMapping.ts]
    and of [Forest.execute], with the properties stated about them.

    Conventions of the embedding.
    - A JavaScript string is a [string]; each character stands for one code
      unit in the range 0..255.
    - A JavaScript value that the code treats as data (a parameter tree, an
      enum value of a schema) is a [value].
    - The remote session, the host context and the credential store are
      external collaborators: they appear as records of functions over an
      abstract server state, and every call made on a session is written
      to a log. *)

From Stdlib Require Import List String Ascii ZArith Lia Bool Arith.
From Stdlib Require Import Numbers.DecimalString.
Import ListNotations.

Set Warnings "-register-all".

Local Open Scope string_scope.
Local Open Scope list_scope.

(* ================================================================== *)
(** * JavaScript values *)
(* ================================================================== *)

(** A parameter tree.  An object is the list of its own enumerable
    properties in the order [Object.entries] lists them, together with its
    prototype: [VObject] is an object whose prototype is [Object.prototype]
    (an object literal, an object built by [JSON.parse]), [VObjectWith]
    an object whose prototype has been replaced, by [null] or by another
    value.  The names of one object are pairwise distinct.  An own property
    may be named [__proto__] ([JSON.parse] creates such a property).
    A hole of an array is written as an [undefined] element: [map] keeps
    it, [filter] skips it, and [undefined] is dropped in the same way.
    Numbers are leaves for every function below. *)
Inductive value : Type :=
| VUndefined
| VNull
| VBool (b : bool)
| VNumber (n : Z)
| VString (s : string)
| VArray (items : list value)
| VObject (entries : list (string * value))
| VObjectWith (proto : value) (entries : list (string * value)).

Section ValueInduction.
Variable P : value -> Prop.
Hypothesis HUndefined : P VUndefined.
Hypothesis HNull : P VNull.
Hypothesis HBool : forall b, P (VBool b).
Hypothesis HNumber : forall n, P (VNumber n).
Hypothesis HString : forall s, P (VString s).
Hypothesis HArray : forall items, Forall P items -> P (VArray items).
Hypothesis HObject :
  forall entries, Forall (fun kv => P (snd kv)) entries -> P (VObject entries).
Hypothesis HObjectWith :
  forall proto entries,
    P proto -> Forall (fun kv => P (snd kv)) entries ->
    P (VObjectWith proto entries).

End ValueInduction.

(** [item !== undefined] is [negb (is_undefined item)]. *)
Definition is_undefined (v : value) : bool :=
  match v with VUndefined => true | _ => false end.

(** [typeof v === 'object' && v !== null && !Array.isArray(v) &&
    Object.keys(v).length === 0]: [Object.keys] lists own properties
    only, whatever the prototype. *)
Definition is_empty_object (v : value) : bool :=
  match v with
  | VObject [] | VObjectWith _ [] => true
  | _ => false
  end.

(** The values that the setter of [Object.prototype.__proto__] accepts
    as a prototype: an object (arrays included) or [null]. *)
Definition is_object_or_null (v : value) : bool :=
  match v with
  | VNull | VArray _ | VObject _ | VObjectWith _ _ => true
  | _ => false
  end.

(* ================================================================== *)
(** * utils.ts: cleanParameters *)
(* ================================================================== *)

(** The object [cleaned] while it is built: its prototype, [None] as long
    as it is the [Object.prototype] that the literal [{}] gave it, and its
    own properties. *)
Definition building : Type := (option value * list (string * value))%type.

(** [cleaned[key] = cleanedValue].  The keys come from [Object.entries],
    so an ordinary name is new and the property is added after the others.
    The name [__proto__] is found as the accessor of [Object.prototype]
    (it occurs once at most among the entries, so [cleaned] still has the
    prototype of a literal when it is assigned): the assignment creates no
    own property, it replaces the prototype of [cleaned] when the value is
    an object or [null] and does nothing otherwise. *)
Definition assign (cleaned : building) (key : string) (v : value) : building :=
  if String.eqb key "__proto__" then
    if is_object_or_null v then (Some v, snd cleaned) else cleaned
  else (fst cleaned, snd cleaned ++ [(key, v)]).

(** One turn of the [for ... of Object.entries(obj)] loop, once the value
    of the entry has been cleaned. *)
Definition clean_entry (cleaned : building) (kv : string * value) : building :=
  let cleanedValue := snd kv in
  if negb (is_undefined cleanedValue) then
    if is_empty_object cleanedValue then cleaned
    else assign cleaned (fst kv) cleanedValue
  else cleaned.

(** [return cleaned]. *)
Definition as_object (cleaned : building) : value :=
  match fst cleaned with
  | None => VObject (snd cleaned)
  | Some proto => VObjectWith proto (snd cleaned)
  end.

(** [Object.entries(obj)] reads the own properties of [obj] and not its
    prototype. *)
Fixpoint cleanParameters (obj : value) : value :=
  match obj with
  | VNull | VUndefined => obj
  | VArray items =>
      VArray (filter (fun item => negb (is_undefined item))
                     (map cleanParameters items))
  | VObject entries | VObjectWith _ entries =>
      as_object (fold_left clean_entry
                   (map (fun kv => (fst kv, cleanParameters (snd kv))) entries)
                   (None, []))
  | _ => obj
  end.

(** ** What a cleaned tree looks like *)



(** [selected keep l out]: [out] holds the elements of [l] that satisfy
    [keep], each one once, in the order of [l]. *)
Inductive selected {A : Type} (keep : A -> Prop) : list A -> list A -> Prop :=
| selected_nil : selected keep [] []
| selected_keep : forall x l l',
    keep x -> selected keep l l' -> selected keep (x :: l) (x :: l')
| selected_drop : forall x l l',
    ~ keep x -> selected keep l l' -> selected keep (x :: l) l'.










(* ================================================================== *)
(** * String primitives of the runtime *)
(* ================================================================== *)

Module Js.

(** White space and line terminators among the code units 0..255:
    TAB, LF, VT, FF, CR, SP and NBSP. *)
Definition is_white_space (c : ascii) : bool :=
  let n := nat_of_ascii c in
  (((9 <=? n) && (n <=? 13)) || (n =? 32) || (n =? 160))%nat.

Fixpoint trimStart (s : string) : string :=
  match s with
  | String c r => if is_white_space c then trimStart r else s
  | EmptyString => EmptyString
  end.

Fixpoint trimEnd (s : string) : string :=
  match s with
  | String c r =>
      match trimEnd r with
      | EmptyString => if is_white_space c then EmptyString
                       else String c EmptyString
      | r' => String c r'
      end
  | EmptyString => EmptyString
  end.

(** [String.prototype.trim]. *)
Definition trim (s : string) : string := trimEnd (trimStart s).

(** [s.endsWith(suffix)]: the last [length suffix] code units of [s] are
    compared with [suffix]; false when [s] is shorter. *)
Definition endsWith (s suffix : string) : bool :=
  let start := String.length s - String.length suffix in
  (String.length suffix <=? String.length s)%nat
  && String.eqb (substring start (String.length suffix) s) suffix.

(** [s.includes(sub)]. *)
Fixpoint includes (s sub : string) : bool :=
  prefix sub s
  || match s with
     | String _ r => includes r sub
     | EmptyString => false
     end.

(** Lower case of one code unit below 256: A-Z, and the Latin-1 capitals
    0xC0-0xDE without the multiplication sign 0xD7. *)
Definition lower_char (c : ascii) : ascii :=
  let n := nat_of_ascii c in
  if (((65 <=? n) && (n <=? 90))
      || ((192 <=? n) && (n <=? 222) && negb (n =? 215)))%nat
  then ascii_of_nat (n + 32) else c.

Fixpoint toLowerCase (s : string) : string :=
  match s with
  | String c r => String (lower_char c) (toLowerCase r)
  | EmptyString => EmptyString
  end.

(** [n.toString()] for an integer [n]. *)
Definition toString (n : Z) : string := NilZero.string_of_int (Z.to_int n).

(** [parts.join(sep)] on strings. *)
Fixpoint join (sep : string) (parts : list string) : string :=
  match parts with
  | [] => ""
  | [p] => p
  | p :: rest => p ++ sep ++ join sep rest
  end.

(** Truthiness of an optional string: [undefined] and [''] are falsy. *)
Definition truthy (s : option string) : bool :=
  match s with
  | Some (String _ _) => true
  | _ => false
  end.

(** ** The pattern [/^https?:\/\//i]

    With the [i] flag and without the [u] flag only the ASCII letters of
    the pattern match in both cases. *)

Definition ascii_lower (c : ascii) : ascii :=
  let n := nat_of_ascii c in
  if ((65 <=? n) && (n <=? 90))%nat then ascii_of_nat (n + 32) else c.

(** Match the literal [lit] at the start of [s], ignoring ASCII case, and
    give back what follows it. *)
Fixpoint match_literal_i (lit s : string) : option string :=
  match lit with
  | EmptyString => Some s
  | String a lit' =>
      match s with
      | String b s' =>
          if Ascii.eqb (ascii_lower a) (ascii_lower b)
          then match_literal_i lit' s' else None
      | EmptyString => None
      end
  end.

(** [/^https?:\/\//i.test(input)]: [http], then an optional [s] (tried
    first, then skipped), then [://]. *)
Definition test_http_scheme (input : string) : bool :=
  match match_literal_i "http" input with
  | None => false
  | Some rest =>
      (match match_literal_i "s" rest with
       | Some rest' =>
           match match_literal_i "://" rest' with
           | Some _ => true
           | None => false
           end
       | None => false
       end)
      || match match_literal_i "://" rest with
         | Some _ => true
         | None => false
         end
  end.

End Js.

(* ================================================================== *)
(** * Values that are thrown *)
(* ================================================================== *)

(** What [errorHasCode] can see of the [code] property of an object:
    whether ['code' in error] holds and, when it does, what
    [Number(error.code)] is. *)
Inductive code_property : Type :=
| CodeAbsent
| CodeNumber (n : Z)
| CodeNotInteger.

(** The [message] property: ['message' in error] and
    [typeof error.message === 'string']. *)
Inductive message_property : Type :=
| MessageAbsent
| MessageNotString
| MessageString (s : string).

(** One issue of a [ZodError]; path segments are given as [join] prints
    them. *)
Record ZodIssue : Type := {
  issue_path : list string;
  issue_message : string
}.

(** A thrown value, by what this code observes of it.
    - [ThrownZodError]: an instance of [ZodError], which is an [Error]
      without a [code] property.
    - [ThrownError]: any other instance of [Error], with its string
      [message].
    - [ThrownObject]: any other value for which
      [!!e && typeof e === 'object'] holds; [text] is [String(e)].
    - [ThrownOther]: a value for which it fails (a primitive, [null],
      [undefined], a function); [text] is [String(e)]. *)
Inductive thrown : Type :=
| ThrownZodError (message : string) (issues : list ZodIssue)
| ThrownError (code : code_property) (message : string)
| ThrownObject (code : code_property) (message : message_property) (text : string)
| ThrownOther (text : string).

Definition is_truthy_object (e : thrown) : bool :=
  match e with
  | ThrownOther _ => false
  | _ => true
  end.

Definition code_of (e : thrown) : code_property :=
  match e with
  | ThrownError c _ | ThrownObject c _ _ => c
  | _ => CodeAbsent
  end.

Definition message_of (e : thrown) : message_property :=
  match e with
  | ThrownZodError m _ | ThrownError _ m => MessageString m
  | ThrownObject _ m _ => m
  | ThrownOther _ => MessageAbsent
  end.

(* ================================================================== *)
(** * utils.ts: results, error classification, URL normalisation *)
(* ================================================================== *)

(** [type Result<T, E>]. *)
Inductive Result (T E : Type) : Type :=
| ResultOk (result : T)
| ResultError (error : E).
Arguments ResultOk {T E} result.
Arguments ResultError {T E} error.

Definition createResultOk {T E : Type} (result : T) : Result T E := ResultOk result.
Definition createResultError {T E : Type} (error : E) : Result T E := ResultError error.

Definition errorHasCode (error : thrown) (code : Z) : bool :=
  is_truthy_object error
  && ((match code_of error with
       | CodeAbsent => false
       | CodeNumber n => Z.eqb n code
       | CodeNotInteger => false
       end)
      || (match message_of error with
          | MessageString m => Js.includes m (Js.toString code)
          | _ => false
          end)).

Definition isUnauthorizedError (error : thrown) : bool := errorHasCode error 401.
Definition isForbiddenError (error : thrown) : bool := errorHasCode error 403.
Definition isNotFoundError (error : thrown) : bool := errorHasCode error 404.

(** The [type] tag of [ConnectMcpClientError]. *)
Inductive ConnectErrorType : Type :=
| invalid_url
| connection
| auth
| not_found.

Record ConnectMcpClientError : Type := {
  cerr_type : ConnectErrorType;
  cerr_error : thrown
}.

(** The [catch] block of [connectMcpClient]. *)
Definition classify (error : thrown) : ConnectMcpClientError :=
  if isUnauthorizedError error || isForbiddenError error then
    {| cerr_type := auth; cerr_error := error |}
  else if isNotFoundError error then
    {| cerr_type := not_found; cerr_error := error |}
  else
    {| cerr_type := connection; cerr_error := error |}.

(** [const withProtocol = ...] of [normalizeAndValidateUrl]. *)
Definition withProtocol (input : string) : string :=
  if negb (Js.test_http_scheme input) then "https://" ++ input else input.

(** What is thrown out of an operation of the node: a value thrown by a
    collaborator that nothing caught, or a [NodeOperationError] built
    here.  Of a [NodeOperationError] the message, the [cause] property and
    the item index of its context are kept; the constructor of the
    library leaves [cause] unset, also when it is given an error. *)
Inductive exn : Type :=
| Uncaught (e : thrown)
| NodeOperationError (message : string) (cause : option thrown)
                     (itemIndex : option nat).

(** [new NodeOperationError(node, error.error, { message })]: the message
    of the options replaces the message of the underlying error. *)
Definition mapToNodeOperationError (error : ConnectMcpClientError) : exn :=
  match cerr_type error with
  | invalid_url =>
      NodeOperationError
        "Could not connect to your Forest MCP server. The provided URL is invalid."
        None None
  | auth =>
      NodeOperationError
        "Could not connect to your Forest MCP server. Authentication failed."
        None None
  | not_found =>
      NodeOperationError
        "MCP server not found. The MCP server has not been setup on your Forest agent. See https://docs.forestadmin.com/developer-guide-agents-nodejs/agent-customization/ai/mcp-server"
        None None
  | connection =>
      NodeOperationError
        "Could not connect to your Forest MCP server"
        None None
  end.

(* ================================================================== *)
(** * utils.ts: getAuthHeadersAndEndpoint *)
(* ================================================================== *)

(** The stored record of the credential type [forestMcpApi]. *)
Record BearerCredentials : Type := {
  bearer_serverUrl : option string;
  bearer_token : option string
}.

Record OAuthTokenData : Type := {
  access_token : option string
}.

(** The stored record of the credential type [forestMcpOAuth2Api]. *)
Record OAuth2Credentials : Type := {
  oauth_serverUrl : option string;
  oauthTokenData : option OAuthTokenData
}.

(** What [await ctx.getCredentials(name)] does: it rejects, or it yields a
    falsy value, or it yields a record. *)
Inductive lookup (A : Type) : Type :=
| LookupRejects (e : thrown)
| LookupNothing
| LookupRecord (a : A).
Arguments LookupRejects {A} e.
Arguments LookupNothing {A}.
Arguments LookupRecord {A} a.

Record CredentialStore : Type := {
  forestMcpApi : lookup BearerCredentials;
  forestMcpOAuth2Api : lookup OAuth2Credentials
}.

(** [{ headers?, endpointUrl? }]. *)
Record ResolvedEndpoint : Type := {
  headers : option (list (string * string));
  endpointUrl : option string
}.

Definition empty_endpoint : ResolvedEndpoint :=
  {| headers := None; endpointUrl := None |}.

(** [field?.trim() || '']. *)
Definition trimmed_or_empty (field : option string) : string :=
  match field with
  | Some s => Js.trim s
  | None => ""
  end.

(** [serverUrl.endsWith('/mcp') ? serverUrl : `${serverUrl}/mcp`]. *)
Definition with_mcp_suffix (serverUrl : string) : string :=
  if Js.endsWith serverUrl "/mcp" then serverUrl else serverUrl ++ "/mcp".

(** The diagnostic written with [console.error] in OAuth2 mode is not part
    of the result and is left out. *)
Definition getAuthHeadersAndEndpoint (ctx : CredentialStore) (authentication : string)
  : ResolvedEndpoint :=
  if String.eqb authentication "bearerAuth" then
    match forestMcpApi ctx with
    | LookupRejects _ => empty_endpoint
    | LookupNothing => empty_endpoint
    | LookupRecord result =>
        let serverUrl := trimmed_or_empty (bearer_serverUrl result) in
        let endpointUrl := with_mcp_suffix serverUrl in
        let token := trimmed_or_empty (bearer_token result) in
        if negb (Js.truthy (Some token)) then empty_endpoint
        else {| headers := Some [("Authorization", ("Bearer " ++ token)%string)];
                endpointUrl := Some endpointUrl |}
    end
  else
    match forestMcpOAuth2Api ctx with
    | LookupRejects _ => empty_endpoint
    | LookupNothing => empty_endpoint
    | LookupRecord result =>
        let serverUrl := trimmed_or_empty (oauth_serverUrl result) in
        let endpointUrl := with_mcp_suffix serverUrl in
        let accessToken :=
          trimmed_or_empty
            (match oauthTokenData result with
             | Some data => access_token data
             | None => None
             end) in
        if negb (Js.truthy (Some accessToken)) then empty_endpoint
        else {| headers := Some [("Authorization", ("Bearer " ++ accessToken)%string)];
                endpointUrl := Some endpointUrl |}
    end.

(* ================================================================== *)
(** * Tools, schemas and the remote session *)
(* ================================================================== *)

(** The [type] keyword of a schema: one name or an array of names. *)
Inductive TypeField : Type :=
| TypeName (t : string)
| TypeNames (ts : list string).

(** A schema found under [properties], as far as the mapper reads it. *)
Record PropertySchema : Type := {
  prop_type : option TypeField;
  prop_description : option string;
  prop_enum : option (list value)
}.

(** A value of [schema.properties]: a boolean schema or a schema object. *)
Inductive PropertyDefinition : Type :=
| BooleanSchema (b : bool)
| ObjectSchema (s : PropertySchema).

(** The input schema of a tool; [schema_properties] lists the properties
    in the order of [Object.entries]. *)
Record JSONSchema7 : Type := {
  schema_type : option TypeField;
  schema_properties : option (list (string * PropertyDefinition));
  schema_required : option (list string)
}.

Record McpTool : Type := {
  tool_name : string;
  tool_description : option string;
  inputSchema : JSONSchema7
}.

Record ListToolsResult : Type := {
  tools : list McpTool;
  nextCursor : option string
}.

(** A block of [result.content]. *)
Inductive ContentItem : Type :=
| TextContent (text : string)
| ImageContent (data mimeType : string)
| AudioContent (data mimeType : string)
| OtherContent (item : value).

Record CallToolResult : Type := {
  content : list ContentItem
}.

(** [new Client({ name, version }, ...)]. *)
Record Client : Type := {
  client_name : string;
  client_version : string
}.

(** The collaborators the node is run against: the URL parser, the remote
    end reached through the SDK client (with a state of its own), and the
    helpers of the host and of the runtime. *)
Record Platform : Type := {
  URL : Type;
  new_URL : string -> thrown + URL;
  Server : Type;
  sdk_connect : Client -> URL -> option (list (string * string)) ->
                Server -> option thrown * Server;
  sdk_listTools : option string -> Server -> (thrown + ListToolsResult) * Server;
  sdk_callTool : string -> value -> option Z ->
                 Server -> (thrown + CallToolResult) * Server;
  sdk_close : Server -> option thrown * Server;
  js_String : value -> string;
  jsonParse : string -> option value;
  BinaryData : Type;
  prepareBinaryData : string -> string -> thrown + BinaryData
}.

(** What happens on the session, in order. *)
Inductive event : Type :=
| SessionOpened
| ConnectRejected
| ListToolsCalled (cursor : option string)
| CallToolCalled (name : string) (arguments : value) (timeout : option Z)
| CloseCalled.

Record world (P : Platform) : Type := {
  server : Server P;
  log : list event
}.
Arguments server {P} w.
Arguments log {P} w.

(** How an asynchronous operation ends: it resolves, it rejects, or (for
    the unbounded recursion of [getAllTools]) it has not ended within the
    given number of calls. *)
Inductive outcome (A : Type) : Type :=
| Returned (a : A)
| Rejected (e : exn)
| Pending.
Arguments Returned {A} a.
Arguments Rejected {A} e.
Arguments Pending {A}.

Definition M (P : Platform) (A : Type) : Type := world P -> outcome A * world P.

Section Effects.
Context {P : Platform}.

Definition ret {A : Type} (a : A) : M P A := fun w => (Returned a, w).

Definition throw {A : Type} (e : exn) : M P A := fun w => (Rejected e, w).

Definition pending {A : Type} : M P A := fun w => (Pending, w).

Definition bind {A B : Type} (m : M P A) (k : A -> M P B) : M P B :=
  fun w =>
    match m w with
    | (Returned a, w') => k a w'
    | (Rejected e, w') => (Rejected e, w')
    | (Pending, w') => (Pending, w')
    end.

(** [try { body } catch (e) { handler e }]. *)
Definition try_catch {A : Type} (body : M P A) (handler : exn -> M P A) : M P A :=
  fun w =>
    match body w with
    | (Rejected e, w') => handler e w'
    | r => r
    end.

(** [try { body } finally { fin }]: [fin] runs when [body] has resolved
    or rejected, and a rejection of [fin] replaces the result. *)
Definition try_finally {A : Type} (body : M P A) (fin : M P unit) : M P A :=
  fun w =>
    match body w with
    | (Pending, w') => (Pending, w')
    | (r, w') =>
        match fin w' with
        | (Returned _, w'') => (r, w'')
        | (Rejected e, w'') => (Rejected e, w'')
        | (Pending, w'') => (Pending, w'')
        end
    end.

Definition record_event (ev : event) (s : Server P) (w : world P) : world P :=
  {| server := s; log := log w ++ [ev] |}.

(** [await client.connect(transport)], as the [try] of [connectMcpClient]
    sees it: [None] when it resolved, the thrown value otherwise. *)
Definition connect (client : Client) (endpoint : URL P)
           (hdrs : option (list (string * string))) : M P (option thrown) :=
  fun w =>
    let (r, s) := sdk_connect P client endpoint hdrs (server w) in
    (Returned r,
     record_event (match r with None => SessionOpened | Some _ => ConnectRejected end) s w).

(** [await client.listTools({ cursor })]. *)
Definition listTools (client : Client) (cursor : option string) : M P ListToolsResult :=
  fun w =>
    let (r, s) := sdk_listTools P cursor (server w) in
    (match r with inl e => Rejected (Uncaught e) | inr page => Returned page end,
     record_event (ListToolsCalled cursor) s w).

(** [await client.callTool({ name, arguments }, undefined, { timeout })]. *)
Definition callTool (client : Client) (name : string) (arguments : value)
           (timeout : option Z) : M P CallToolResult :=
  fun w =>
    let (r, s) := sdk_callTool P name arguments timeout (server w) in
    (match r with inl e => Rejected (Uncaught e) | inr res => Returned res end,
     record_event (CallToolCalled name arguments timeout) s w).

(** [await client.close()]. *)
Definition close (client : Client) : M P unit :=
  fun w =>
    let (r, s) := sdk_close P (server w) in
    (match r with Some e => Rejected (Uncaught e) | None => Returned tt end,
     record_event CloseCalled s w).

End Effects.

Notation "x <- m ;; k" := (bind m (fun x => k))
  (at level 61, m at next level, right associativity).

(* ================================================================== *)
(** * utils.ts: getAllTools, normalizeAndValidateUrl, connectMcpClient *)
(* ================================================================== *)

Section Utils.
Context {P : Platform}.

(** Each call of [getAllTools] uses one unit of [fuel]; the source has no
    bound of its own. *)
Fixpoint getAllTools (fuel : nat) (client : Client) (cursor : option string)
  : M P (list McpTool) :=
  match fuel with
  | O => pending
  | S fuel' =>
      page <- listTools client cursor ;;
      if Js.truthy (nextCursor page) then
        rest <- getAllTools fuel' client (nextCursor page) ;;
        ret (tools page ++ rest)
      else
        ret (tools page)
  end.

Definition normalizeAndValidateUrl (input : string) : Result (URL P) thrown :=
  match new_URL P (withProtocol input) with
  | inr url => createResultOk url
  | inl error => createResultError error
  end.

Definition connectMcpClient (hdrs : option (list (string * string)))
           (endpointUrl : string) (name : string) (version : Z)
  : M P (Result Client ConnectMcpClientError) :=
  match normalizeAndValidateUrl endpointUrl with
  | ResultError error =>
      ret (createResultError {| cerr_type := invalid_url; cerr_error := error |})
  | ResultOk endpoint =>
      let client := {| client_name := name; client_version := Js.toString version |} in
      r <- connect client endpoint hdrs ;;
      match r with
      | None => ret (createResultOk client)
      | Some error => ret (createResultError (classify error))
      end
  end.

End Utils.

(* ================================================================== *)
(** * listSearch.ts: getTools *)
(* ================================================================== *)

(** [this.getNode()]. *)
Record INode : Type := {
  node_type : string;
  node_typeVersion : Z
}.

(** The host context of the two discovery methods: the values of the node
    parameters they read, the node and the credential store. *)
Record LoadOptionsContext : Type := {
  lo_authentication : string;
  lo_tool_value : option string;
  lo_node : INode;
  lo_credentials : CredentialStore
}.

Record ListSearchItem : Type := {
  item_name : string;
  item_value : string;
  item_description : option string
}.

Record INodeListSearchResult : Type := {
  results : list ListSearchItem;
  paginationToken : option string
}.

Section ListSearch.
Context {P : Platform}.

Definition getTools (this : LoadOptionsContext)
           (filter : option string) (paginationToken : option string)
  : M P INodeListSearchResult :=
  let authentication := lo_authentication this in
  let resolved := getAuthHeadersAndEndpoint (lo_credentials this) authentication in
  if negb (Js.truthy (endpointUrl resolved)) then
    ret {| results := []; paginationToken := None |}
  else
    let node := lo_node this in
    client <- connectMcpClient (headers resolved)
                (match endpointUrl resolved with Some u => u | None => "" end)
                (node_type node) (node_typeVersion node) ;;
    match client with
    | ResultError error => throw (mapToNodeOperationError error)
    | ResultOk session =>
        try_finally
          (result <- listTools session paginationToken ;;
           let found :=
             match filter with
             | Some ((String _ _) as f) =>
                 List.filter
                   (fun tool => Js.includes (Js.toLowerCase (tool_name tool))
                                            (Js.toLowerCase f))
                   (tools result)
             | _ => tools result
             end in
           ret {| results :=
                    map (fun tool => {| item_name := tool_name tool;
                                        item_value := tool_name tool;
                                        item_description := tool_description tool |})
                        found;
                  paginationToken := nextCursor result |})
          (close session)
    end.

End ListSearch.

(* ================================================================== *)
(** * resourceMapping.ts *)
(* ================================================================== *)

(** The field types the mapper produces. *)
Inductive FieldType : Type :=
| ft_string
| ft_number
| ft_boolean
| ft_array
| ft_object
| ft_options.

Record INodePropertyOptions : Type := {
  option_name : string;
  option_value : value
}.

Record ResourceMapperField : Type := {
  field_id : string;
  field_displayName : string;
  field_type : FieldType;
  field_required : bool;
  field_defaultMatch : bool;
  field_canBeUsedToMatch : bool;
  field_display : bool;
  field_defaultValue : option string;
  field_options : option (list INodePropertyOptions)
}.

Record ResourceMapperFields : Type := {
  fields : list ResourceMapperField
}.

(** [Array.isArray(type) ? type[0] : type]; [None] is [undefined]. *)
Definition primaryType (type : TypeField) : option string :=
  match type with
  | TypeName t => Some t
  | TypeNames ts => List.hd_error ts
  end.

Definition jsonSchemaTypeToFieldType (type : TypeField) : FieldType :=
  match primaryType type with
  | Some t =>
      if String.eqb t "string" then ft_string
      else if String.eqb t "number" then ft_number
      else if String.eqb t "integer" then ft_number
      else if String.eqb t "boolean" then ft_boolean
      else if String.eqb t "array" then ft_array
      else if String.eqb t "object" then ft_object
      else ft_string
  | None => ft_string
  end.

(** [propertySchema.type || 'string']: an absent type and the empty name
    are falsy, an array is not. *)
Definition type_or_string (type : option TypeField) : TypeField :=
  match type with
  | None => TypeName "string"
  | Some (TypeName "") => TypeName "string"
  | Some t => t
  end.

(** [requiredFields.includes(key)]. *)
Definition array_includes (l : list string) (key : string) : bool :=
  existsb (String.eqb key) l.

Section ResourceMapping.
Context {P : Platform}.

(** The body of the loop for one entry that is not a boolean schema. *)
Definition convertProperty (requiredFields : list string)
           (key : string) (propertySchema : PropertySchema) : ResourceMapperField :=
  let displayName :=
    match prop_description propertySchema with
    | Some ((String _ _) as d) => (key ++ " - " ++ d)%string
    | _ => key
    end in
  let fieldType := jsonSchemaTypeToFieldType (type_or_string (prop_type propertySchema)) in
  let defaultValue :=
    match fieldType with
    | ft_object => Some "{}"
    | ft_array => Some "[]"
    | _ => None
    end in
  match prop_enum propertySchema with
  | Some ((_ :: _) as enum) =>
      {| field_id := key;
         field_displayName := displayName;
         field_type := ft_options;
         field_required := array_includes requiredFields key;
         field_defaultMatch := false;
         field_canBeUsedToMatch := false;
         field_display := true;
         field_defaultValue := defaultValue;
         field_options :=
           Some (map (fun v => {| option_name := js_String P v; option_value := v |})
                     enum) |}
  | _ =>
      {| field_id := key;
         field_displayName := displayName;
         field_type := fieldType;
         field_required := array_includes requiredFields key;
         field_defaultMatch := false;
         field_canBeUsedToMatch := false;
         field_display := true;
         field_defaultValue := defaultValue;
         field_options := None |}
  end.

(** The [for ... of Object.entries(schema.properties)] loop, pushing to
    [fields]. *)
Fixpoint convertProperties (requiredFields : list string)
         (entries : list (string * PropertyDefinition))
         (fields : list ResourceMapperField) : list ResourceMapperField :=
  match entries with
  | [] => fields
  | (key, BooleanSchema _) :: rest => convertProperties requiredFields rest fields
  | (key, ObjectSchema propertySchema) :: rest =>
      convertProperties requiredFields rest
        (fields ++ [convertProperty requiredFields key propertySchema])
  end.

Definition convertJsonSchemaToResourceMapperFields
           (schema : JSONSchema7) (requiredFields : list string)
  : list ResourceMapperField :=
  match schema_type schema, schema_properties schema with
  | Some (TypeName t), Some properties =>
      if String.eqb t "object" then convertProperties requiredFields properties []
      else []
  | _, _ => []
  end.

Definition getToolParameters (fuel : nat) (this : LoadOptionsContext)
  : M P ResourceMapperFields :=
  if negb (Js.truthy (lo_tool_value this)) then ret {| fields := [] |}
  else
    let toolId := match lo_tool_value this with Some t => t | None => "" end in
    let authentication := lo_authentication this in
    let node := lo_node this in
    let resolved := getAuthHeadersAndEndpoint (lo_credentials this) authentication in
    if negb (Js.truthy (endpointUrl resolved)) then ret {| fields := [] |}
    else
      client <- connectMcpClient (headers resolved)
                  (match endpointUrl resolved with Some u => u | None => "" end)
                  (node_type node) (node_typeVersion node) ;;
      match client with
      | ResultError _ => ret {| fields := [] |}
      | ResultOk session =>
          try_finally
            (all <- getAllTools fuel session None ;;
             match List.find (fun t => String.eqb (tool_name t) toolId) all with
             | None => ret {| fields := [] |}
             | Some tool =>
                 let schema := inputSchema tool in
                 let requiredFields :=
                   match schema_required schema with
                   | Some r => r
                   | None => []
                   end in
                 ret {| fields :=
                          convertJsonSchemaToResourceMapperFields schema requiredFields |}
             end)
            (close session)
      end.

End ResourceMapping.

(* ================================================================== *)
(** * Forest.node.ts: execute *)
(* ================================================================== *)

(** The [options] collection of one item. *)
Record ToolOptions : Type := {
  opt_convertToBinary : option bool;
  opt_timeout : option Z
}.

(** The host context of [execute].  The lookups of [authentication] and
    [inputMode], made once before the item loop, are taken to succeed.
    The lookups made for an item, inside the [try] block of the loop,
    yield a value ([inr]) or throw ([inl]): [tool.value], [options],
    [parameters.value] and [jsonInput]. *)
Record ExecuteContext : Type := {
  ex_authentication : string;
  ex_node : INode;
  ex_credentials : CredentialStore;
  ex_inputMode : string;
  ex_items : nat;
  ex_tool : nat -> thrown + string;
  ex_options : nat -> thrown + ToolOptions;
  ex_parameters : nat -> thrown + value;
  ex_jsonInput : nat -> thrown + value;
  ex_continueOnFail : bool
}.

(** An element of [json.content]: a text block with its parsed text, or a
    block passed as it is. *)
Inductive OutputContent : Type :=
| ParsedText (text : value)
| PassedThrough (item : ContentItem).

Inductive OutputJson : Type :=
| JsonContent (content : option (list OutputContent))
| JsonError (message : string) (issues : option (list ZodIssue)).

Record INodeExecutionData (B : Type) : Type := {
  json : OutputJson;
  binary : option (list (string * B));
  pairedItem : nat
}.
Arguments json {B} i.
Arguments binary {B} i.
Arguments pairedItem {B} i.

(** The [errorMessage] of the [catch] of the item loop. *)
Definition errorMessageOf (e : exn) : string :=
  match e with
  | Uncaught (ThrownZodError _ issues) =>
      Js.join ", "
        (map (fun err => (Js.join "." (issue_path err) ++ ": " ++ issue_message err)%string)
             issues)
  | Uncaught (ThrownError _ m) => m
  | Uncaught (ThrownObject _ _ text) => text
  | Uncaught (ThrownOther text) => text
  | NodeOperationError m _ _ => m
  end.

Definition issuesOf (e : exn) : option (list ZodIssue) :=
  match e with
  | Uncaught (ThrownZodError _ issues) => Some issues
  | _ => None
  end.

Section Execute.
Context {P : Platform}.

(** The [for (const contentItem of result.content)] loop with its three
    variables. *)
Fixpoint splitContent (convertToBinary : bool) (items : list ContentItem)
         (binaryIndex : nat) (binary : list (string * BinaryData P))
         (content : list OutputContent)
  : M P (list (string * BinaryData P) * list OutputContent) :=
  match items with
  | [] => ret (binary, content)
  | TextContent text :: rest =>
      let parsed := match jsonParse P text with
                    | Some v => v
                    | None => VString text
                    end in
      splitContent convertToBinary rest binaryIndex binary
                   (content ++ [ParsedText parsed])
  | ((ImageContent data mimeType) as contentItem) :: rest
  | ((AudioContent data mimeType) as contentItem) :: rest =>
      if convertToBinary then
        match prepareBinaryData P data mimeType with
        | inl e => throw (Uncaught e)
        | inr prepared =>
            splitContent convertToBinary rest (S binaryIndex)
              (binary ++ [(("data_" ++ Js.toString (Z.of_nat binaryIndex))%string,
                           prepared)])
              content
        end
      else
        splitContent convertToBinary rest binaryIndex binary
                     (content ++ [PassedThrough contentItem])
  | ((OtherContent _) as contentItem) :: rest =>
      splitContent convertToBinary rest binaryIndex binary
                   (content ++ [PassedThrough contentItem])
  end.

(** [this.getNodeParameter(name, itemIndex)] inside the [try] block: the
    value that was found, or the throw of the host. *)
Definition getNodeParameter {A : Type} (found : thrown + A) : M P A :=
  match found with
  | inl e => throw (Uncaught e)
  | inr a => ret a
  end.

(** The [try] block of one item. *)
Definition runItem (this : ExecuteContext) (client : Client) (inputMode : string)
           (itemIndex : nat) : M P (INodeExecutionData (BinaryData P)) :=
  tool <- getNodeParameter (ex_tool this itemIndex) ;;
  options <- getNodeParameter (ex_options this itemIndex) ;;
  parameters <- (if String.eqb inputMode "manual"
                 then getNodeParameter (ex_parameters this itemIndex)
                 else getNodeParameter (ex_jsonInput this itemIndex)) ;;
  result <- callTool client tool parameters
              (match opt_timeout options with
               | Some 0%Z => None
               | t => t
               end) ;;
  let convertToBinary :=
    match opt_convertToBinary options with
    | Some b => b
    | None => true
    end in
  split <- splitContent convertToBinary (content result) 0 [] [] ;;
  ret {| json := JsonContent (match snd split with
                              | [] => None
                              | c => Some c
                              end);
         binary := match fst split with
                   | [] => None
                   | b => Some b
                   end;
         pairedItem := itemIndex |}.

(** The item loop: [remaining] items are left, starting at [itemIndex]. *)
Fixpoint runItems (this : ExecuteContext) (client : Client) (inputMode : string)
         (remaining itemIndex : nat)
         (returnData : list (INodeExecutionData (BinaryData P)))
  : M P (list (INodeExecutionData (BinaryData P))) :=
  match remaining with
  | O => ret returnData
  | S remaining' =>
      pushed <- try_catch
                  (item <- runItem this client inputMode itemIndex ;;
                   ret (returnData ++ [item]))
                  (fun e =>
                     let errorMessage := errorMessageOf e in
                     if ex_continueOnFail this then
                       ret (returnData ++
                            [{| json := JsonError errorMessage (issuesOf e);
                                binary := None;
                                pairedItem := itemIndex |}])
                     else
                       throw (NodeOperationError errorMessage None (Some itemIndex))) ;;
      runItems this client inputMode remaining' (S itemIndex) pushed
  end.

Definition execute (this : ExecuteContext)
  : M P (list (list (INodeExecutionData (BinaryData P)))) :=
  let authentication := ex_authentication this in
  let node := ex_node this in
  let resolved := getAuthHeadersAndEndpoint (ex_credentials this) authentication in
  if negb (Js.truthy (endpointUrl resolved)) then
    throw (NodeOperationError "Server URL is required in credentials" None None)
  else
    client <- connectMcpClient (headers resolved)
                (match endpointUrl resolved with Some u => u | None => "" end)
                (node_type node) (node_typeVersion node) ;;
    match client with
    | ResultError error => throw (mapToNodeOperationError error)
    | ResultOk session =>
        let inputMode := ex_inputMode this in
        returnData <- runItems this session inputMode (ex_items this) 0 [] ;;
        ret [returnData]
    end.

End Execute.

(* ================================================================== *)
(** * Vocabulary of the properties *)
(* ================================================================== *)

(** The number of sessions that a log leaves open: opened by a resolved
    [connect] and not closed by a later [close]. *)
Fixpoint open_sessions (evs : list event) (opened : nat) : nat :=
  match evs with
  | [] => opened
  | SessionOpened :: rest => open_sessions rest (S opened)
  | CloseCalled :: rest => open_sessions rest (Nat.pred opened)
  | _ :: rest => open_sessions rest opened
  end.

Definition is_close (ev : event) : bool :=
  match ev with CloseCalled => true | _ => false end.

Definition is_open (ev : event) : bool :=
  match ev with SessionOpened => true | _ => false end.

Definition is_callTool (ev : event) : bool :=
  match ev with CallToolCalled _ _ _ => true | _ => false end.

Definition is_listTools (ev : event) : bool :=
  match ev with ListToolsCalled _ => true | _ => false end.

(** The endpoint that the two discovery methods resolve. *)
Definition discovery_endpoint (this : LoadOptionsContext) : ResolvedEndpoint :=
  getAuthHeadersAndEndpoint (lo_credentials this) (lo_authentication this).

(** An error carries a status: in a numeric [code] field, or in the text
    of its [message]. *)
Definition carries (e : thrown) (status : Z) : Prop :=
  is_truthy_object e = true /\
  (code_of e = CodeNumber status \/
   exists before after,
     message_of e = MessageString (before ++ Js.toString status ++ after)).

(** A string starts with [http://] or [https://], in any letter case. *)
Definition has_http_scheme (input : string) : Prop :=
  exists scheme rest,
    input = (scheme ++ rest)%string /\
    (Js.toLowerCase scheme = "http://" \/ Js.toLowerCase scheme = "https://").

(** The characters of the pattern [/^https?:\/\//i]. *)
Fixpoint scheme_literal (lit : string) : Prop :=
  match lit with
  | String a r => In a ["h"; "t"; "p"; "s"; ":"; "/"]%char /\ scheme_literal r
  | EmptyString => True
  end.

(** Only white space. *)
Fixpoint all_white_space (s : string) : bool :=
  match s with
  | String c r => Js.is_white_space c && all_white_space r
  | EmptyString => true
  end.

Definition first_char (s : string) : option ascii :=
  match s with
  | String c _ => Some c
  | EmptyString => None
  end.

Fixpoint last_char (s : string) : option ascii :=
  match s with
  | String c EmptyString => Some c
  | String _ r => last_char r
  | EmptyString => None
  end.

(** The code units below 256 that [String.prototype.trim] removes: TAB,
    LF, VT, FF, CR, SP and NBSP. *)
Definition white_space_code_units : list nat := [9; 10; 11; 12; 13; 32; 160]%nat.

Definition white_space (c : ascii) : Prop :=
  In (nat_of_ascii c) white_space_code_units.

(** A string made of white space only, the empty string included. *)
Fixpoint blank (s : string) : Prop :=
  match s with
  | String c r => white_space c /\ blank r
  | EmptyString => True
  end.

(** [stored_as field s]: [s] is what is left of the stored [field] once
    the white space around it is removed; of a field that is absent, the
    empty string. *)
Definition stored_as (field : option string) (s : string) : Prop :=
  match field with
  | None => s = ""
  | Some raw =>
      (exists before after,
          raw = (before ++ s ++ after)%string /\ blank before /\ blank after)
      /\ (forall c, first_char s = Some c -> ~ white_space c)
      /\ (forall c, last_char s = Some c -> ~ white_space c)
  end.

(** [serves P s cursor pages s']: asked with [cursor] in state [s], the
    remote end hands out [pages] one call after the other, each page but
    the last carrying the cursor of the next, and is left in state [s']. *)
Inductive serves (P : Platform)
  : Server P -> option string -> list ListToolsResult -> Server P -> Prop :=
| serves_last : forall s cursor page s',
    sdk_listTools P cursor s = (inr page, s') ->
    Js.truthy (nextCursor page) = false ->
    serves P s cursor [page] s'
| serves_next : forall s cursor page s1 rest s',
    sdk_listTools P cursor s = (inr page, s1) ->
    Js.truthy (nextCursor page) = true ->
    serves P s1 (nextCursor page) rest s' ->
    serves P s cursor (page :: rest) s'.

(** The cursors of the calls that fetch [pages], the first call being made
    with [cursor]. *)
Fixpoint cursors_asked (cursor : option string) (pages : list ListToolsResult)
  : list (option string) :=
  match pages with
  | [] => []
  | page :: rest => cursor :: cursors_asked (nextCursor page) rest
  end.

(* ================================================================== *)
(** * A scripted platform *)
(* ================================================================== *)

(** A platform for the examples: the remote end answers from a script, as
    a mocked session does. *)
Module Scripted.

Record script : Type := {
  connect_outcome : option thrown;
  pages : list ListToolsResult;
  call_outcome : thrown + CallToolResult;
  close_outcome : option thrown
}.

(** Strings with a blank, and a bare scheme, are refused. *)
Definition parse (s : string) : thrown + string :=
  if Js.includes s " " || String.eqb s "https://" || String.eqb s "http://"
  then inl (ThrownError CodeNotInteger "Invalid URL")
  else inr s.

Definition list_tools (cursor : option string) (s : script)
  : (thrown + ListToolsResult) * script :=
  match pages s with
  | [] => (inl (ThrownError CodeAbsent "no page left"), s)
  | page :: rest =>
      (inr page,
       {| connect_outcome := connect_outcome s;
          pages := rest;
          call_outcome := call_outcome s;
          close_outcome := close_outcome s |})
  end.

(** [String(v)]; the digits of a number are those of an integer of
    moderate size. *)
Fixpoint to_text (v : value) : string :=
  match v with
  | VUndefined => "undefined"
  | VNull => "null"
  | VBool true => "true"
  | VBool false => "false"
  | VNumber n => Js.toString n
  | VString s => s
  | VArray items =>
      Js.join ","
        (map (fun item => match item with
                          | VUndefined | VNull => ""
                          | _ => to_text item
                          end) items)
  | VObject _ | VObjectWith _ _ => "[object Object]"
  end.

Definition parse_json (s : string) : option value :=
  if String.eqb s "42" then Some (VNumber 42)
  else if String.eqb s "true" then Some (VBool true)
  else if String.eqb s "null" then Some VNull
  else None.

Definition platform : Platform :=
  {| URL := string;
     new_URL := parse;
     Server := script;
     sdk_connect := fun _ _ _ s => (connect_outcome s, s);
     sdk_listTools := list_tools;
     sdk_callTool := fun _ _ _ s => (call_outcome s, s);
     sdk_close := fun s => (close_outcome s, s);
     js_String := to_text;
     jsonParse := parse_json;
     BinaryData := string * string;
     prepareBinaryData := fun data mimeType => inr (data, mimeType) |}.

Definition start (s : script) : world platform := Build_world platform s [].

Definition no_schema : JSONSchema7 :=
  {| schema_type := None; schema_properties := None; schema_required := None |}.

Definition tool (name : string) : McpTool :=
  {| tool_name := name; tool_description := None; inputSchema := no_schema |}.

(** Three pages, chained by the cursors [c1] and [c2]. *)
Definition P1 : ListToolsResult :=
  {| tools := [tool "list"; tool "create"]; nextCursor := Some "c1" |}.
Definition P2 : ListToolsResult :=
  {| tools := [tool "update"]; nextCursor := Some "c2" |}.
Definition P3 : ListToolsResult :=
  {| tools := [tool "delete"]; nextCursor := None |}.

Definition healthy : script :=
  {| connect_outcome := None;
     pages := [P1; P2; P3];
     call_outcome := inr {| content := [TextContent "42"] |};
     close_outcome := None |}.

(** [healthy] once its three pages have been handed out. *)
Definition drained : script :=
  {| connect_outcome := None;
     pages := [];
     call_outcome := inr {| content := [TextContent "42"] |};
     close_outcome := None |}.

(** The transport answers 401. *)
Definition unauthorized : script :=
  {| connect_outcome :=
       Some (ThrownError (CodeNumber 401) "Error POSTing to endpoint (HTTP 401)");
     pages := [];
     call_outcome := inl (ThrownError CodeAbsent "Not connected");
     close_outcome := None |}.

(** The transport answers 404 and the text of the answer holds 401. *)
Definition route_missing : thrown :=
  ThrownError (CodeNumber 404)
    "Error POSTing to endpoint (HTTP 404): no handler on port 4010".

Definition unrouted : script :=
  {| connect_outcome := Some route_missing;
     pages := [];
     call_outcome := inl (ThrownError CodeAbsent "Not connected");
     close_outcome := None |}.

Definition bearer_store : CredentialStore :=
  {| forestMcpApi :=
       LookupRecord {| bearer_serverUrl := Some "https://x.test";
                       bearer_token := Some "abc" |};
     forestMcpOAuth2Api := LookupNothing |}.

(** The token is blank. *)
Definition blank_token_store : CredentialStore :=
  {| forestMcpApi :=
       LookupRecord {| bearer_serverUrl := Some " https://x.test/mcp ";
                       bearer_token := Some "  " |};
     forestMcpOAuth2Api := LookupNothing |}.

(** The server URL is blank, the token is not. *)
Definition blank_server_store : CredentialStore :=
  {| forestMcpApi :=
       LookupRecord {| bearer_serverUrl := Some "   ";
                       bearer_token := Some " abc" |};
     forestMcpOAuth2Api := LookupNothing |}.

(** The OAuth flow has not been completed. *)
Definition oauth_pending_store : CredentialStore :=
  {| forestMcpApi := LookupNothing;
     forestMcpOAuth2Api :=
       LookupRecord {| oauth_serverUrl := Some "https://x.test";
                       oauthTokenData := None |} |}.

Definition node : INode := {| node_type := "forest"; node_typeVersion := 1 |}.

Definition discovery : LoadOptionsContext :=
  {| lo_authentication := "bearerAuth";
     lo_tool_value := Some "update";
     lo_node := node;
     lo_credentials := bearer_store |}.

(** The same node before its credentials are complete. *)
Definition unconfigured : LoadOptionsContext :=
  {| lo_authentication := "bearerAuth";
     lo_tool_value := Some "update";
     lo_node := node;
     lo_credentials := blank_token_store |}.

(** One input item, one call of the tool [update]. *)
Definition one_item : ExecuteContext :=
  {| ex_authentication := "bearerAuth";
     ex_node := node;
     ex_credentials := bearer_store;
     ex_inputMode := "manual";
     ex_items := 1;
     ex_tool := fun _ => inr "update";
     ex_options :=
       fun _ => inr {| opt_convertToBinary := None; opt_timeout := None |};
     ex_parameters := fun _ => inr (VObject [("id", VNumber 7)]);
     ex_jsonInput := fun _ => inr (VObject []);
     ex_continueOnFail := false |}.

End Scripted.

(* ================================================================== *)
(** * utils.ts, earlier revision: getAuthHeadersAndEndpoint *)
(* ================================================================== *)

(** The first revision of [getAuthHeadersAndEndpoint] kept in [utils.ts]:
    the stored strings are used as they are, without [trim]. *)
Module Earlier.

(** [field || '']. *)
Definition or_empty (field : option string) : string :=
  match field with
  | Some s => s
  | None => ""
  end.

Definition getAuthHeadersAndEndpoint (ctx : CredentialStore) (authentication : string)
  : ResolvedEndpoint :=
  if String.eqb authentication "bearerAuth" then
    match forestMcpApi ctx with
    | LookupRejects _ => empty_endpoint
    | LookupNothing => empty_endpoint
    | LookupRecord result =>
        let serverUrl := or_empty (bearer_serverUrl result) in
        let endpointUrl := with_mcp_suffix serverUrl in
        if negb (Js.truthy (bearer_token result)) then empty_endpoint
        else {| headers :=
                  Some [("Authorization",
                         ("Bearer " ++ or_empty (bearer_token result))%string)];
                endpointUrl := Some endpointUrl |}
    end
  else
    match forestMcpOAuth2Api ctx with
    | LookupRejects _ => empty_endpoint
    | LookupNothing => empty_endpoint
    | LookupRecord result =>
        let serverUrl := or_empty (oauth_serverUrl result) in
        let endpointUrl := with_mcp_suffix serverUrl in
        let accessToken :=
          match oauthTokenData result with
          | Some data => access_token data
          | None => None
          end in
        if negb (Js.truthy accessToken) then empty_endpoint
        else {| headers :=
                  Some [("Authorization", ("Bearer " ++ or_empty accessToken)%string)];
                endpointUrl := Some endpointUrl |}
    end.

End Earlier.

(* ================================================================== *)
(** * The record node: execute *)
(* ================================================================== *)

(** The node with the [record] resource.  Its [execute] reads parameters
    and builds items; a parameter lookup either yields a value or throws. *)
Module RecordNode.

(** What a lookup throws, as the [catch] block sees it: [null] or
    [undefined], of which no property can be read; or any other value,
    by what is observed of it. *)
Inductive raised : Type :=
| Nullish
| Value (e : thrown).

(** What [execute] throws: what a lookup has thrown, or the [TypeError]
    of the runtime for reading [message] of [null] or [undefined] in the
    [catch] block. *)
Inductive failure : Type :=
| Thrown (r : raised)
| MessageOfNullish.

Record Context : Type := {
  items : nat;
  resource : raised + string;
  operation : raised + string;
  recordId : nat -> raised + string;
  returnAll : nat -> raised + bool;
  limit : nat -> raised + Z;
  continueOnFail : bool
}.

(** The [json] of an output item. *)
Inductive Json : Type :=
| GetJson (id : string) (message : string)
| GetAllJson (records : list value) (limit : Z) (message : string)
| ErrorJson (error : message_property).

Record Item : Type := {
  json : Json;
  pairedItem : nat
}.

(** The [try] block of one item: the items to push, or what is thrown. *)
Definition tryItem (this : Context) (resource operation : string) (i : nat)
  : raised + list Item :=
  if String.eqb resource "record" then
    if String.eqb operation "get" then
      match recordId this i with
      | inl e => inl e
      | inr id =>
          inr [{| json := GetJson id "Record retrieved successfully";
                  pairedItem := i |}]
      end
    else if String.eqb operation "getAll" then
      match returnAll this i with
      | inl e => inl e
      | inr all =>
          match (if all then inr (-1)%Z else limit this i) with
          | inl e => inl e
          | inr lim =>
              inr [{| json := GetAllJson [] lim "Records retrieved successfully";
                      pairedItem := i |}]
          end
      end
    else inr []
  else inr [].

(** The item loop: [remaining] items are left, starting at [i].  In the
    [catch] block [(error as Error).message] is read before the item is
    pushed. *)
Fixpoint loop (this : Context) (resource operation : string)
         (remaining i : nat) (returnData : list Item) : failure + list Item :=
  match remaining with
  | O => inr returnData
  | S remaining' =>
      match tryItem this resource operation i with
      | inr pushed =>
          loop this resource operation remaining' (S i) (returnData ++ pushed)
      | inl error =>
          if continueOnFail this then
            match error with
            | Nullish => inl MessageOfNullish
            | Value e =>
                loop this resource operation remaining' (S i)
                     (returnData ++ [{| json := ErrorJson (message_of e);
                                        pairedItem := i |}])
            end
          else inl (Thrown error)
      end
  end.

Definition execute (this : Context) : failure + list (list Item) :=
  match resource this with
  | inl e => inl (Thrown e)
  | inr resource =>
      match operation this with
      | inl e => inl (Thrown e)
      | inr operation =>
          match loop this resource operation (items this) 0 [] with
          | inl e => inl e
          | inr returnData => inr [returnData]
          end
      end
  end.

End RecordNode.

(* ================================================================== *)
(** * Further vocabulary *)
(* ================================================================== *)

(** [serves_then_rejects P s cursor pages e s']: the remote end hands out
    [pages], each carrying the cursor of the next call, and the call that
    follows them is rejected with [e]. *)
Inductive serves_then_rejects (P : Platform)
  : Server P -> option string -> list ListToolsResult -> thrown -> Server P -> Prop :=
| rejects_now : forall s cursor e s',
    sdk_listTools P cursor s = (inl e, s') ->
    serves_then_rejects P s cursor [] e s'
| rejects_later : forall s cursor page s1 rest e s',
    sdk_listTools P cursor s = (inr page, s1) ->
    Js.truthy (nextCursor page) = true ->
    serves_then_rejects P s1 (nextCursor page) rest e s' ->
    serves_then_rejects P s cursor (page :: rest) e s'.

(** The remote end never stops handing out cursors. *)
Definition always_more (P : Platform) : Prop :=
  forall cursor s,
    exists page s',
      sdk_listTools P cursor s = (inr page, s')
      /\ Js.truthy (nextCursor page) = true.

(** A stored string without white space at either end. *)
Definition tidy (field : option string) : Prop :=
  match field with
  | Some s => Js.trim s = s
  | None => True
  end.

(** The access token of an OAuth2 record, when there is one. *)
Definition stored_access_token (cred : OAuth2Credentials) : option string :=
  match oauthTokenData cred with
  | Some data => access_token data
  | None => None
  end.

(** A store with the bearer record [{serverUrl, token}]. *)
Definition bearer_record_store (serverUrl token : string)
           (oauth : lookup OAuth2Credentials) : CredentialStore :=
  {| forestMcpApi := LookupRecord {| bearer_serverUrl := Some serverUrl;
                                     bearer_token := Some token |};
     forestMcpOAuth2Api := oauth |}.

(** The entries of [properties] that are schema objects. *)
Definition is_object_schema (kv : string * PropertyDefinition) : bool :=
  match snd kv with
  | ObjectSchema _ => true
  | BooleanSchema _ => false
  end.

(** The search items that [getTools] builds from the tools of a page. *)
Definition search_item (tool : McpTool) : ListSearchItem :=
  {| item_name := tool_name tool;
     item_value := tool_name tool;
     item_description := tool_description tool |}.

(** The key of the binary attachment number [i]. *)
Definition binary_key (i : nat) : string :=
  ("data_" ++ Js.toString (Z.of_nat i))%string.

(** The endpoint that [execute] resolves. *)
Definition execution_endpoint (this : ExecuteContext) : ResolvedEndpoint :=
  getAuthHeadersAndEndpoint (ex_credentials this) (ex_authentication this).

(** What the item [i] gives to its tool call: the tool, the options and
    the arguments ([parameters.value] in manual mode, [jsonInput]
    otherwise); or what the first lookup that throws has thrown. *)
Definition item_lookups (this : ExecuteContext) (i : nat)
  : thrown + (string * ToolOptions * value) :=
  match ex_tool this i with
  | inl e => inl e
  | inr tool =>
      match ex_options this i with
      | inl e => inl e
      | inr options =>
          match (if String.eqb (ex_inputMode this) "manual"
                 then ex_parameters this i else ex_jsonInput this i) with
          | inl e => inl e
          | inr parameters => inr (tool, options, parameters)
          end
      end
  end.

(** The tool call of an item: a timeout of 0 counts as none. *)
Definition item_call (tool : string) (options : ToolOptions) (parameters : value)
  : event :=
  CallToolCalled tool parameters
    (match opt_timeout options with
     | Some 0%Z => None
     | t => t
     end).

(** The calls that [execute] makes for the item [i]: one tool call, or
    none when a lookup of the item throws. *)
Definition item_calls (this : ExecuteContext) (i : nat) : list event :=
  match item_lookups this i with
  | inr (tool, options, parameters) => [item_call tool options parameters]
  | inl _ => []
  end.

(** The output that stands for the item [i] when [e] was caught and
    failures are kept as data. *)
Definition error_record {B : Type} (e : exn) (i : nat) : INodeExecutionData B :=
  {| json := JsonError (errorMessageOf e) (issuesOf e);
     binary := None;
     pairedItem := i |}.

(** The blocks of a tool result that become binary attachments, by data
    and MIME type: the images and the sounds, in the order of the blocks,
    and none of them when [convertToBinary] is off. *)
Definition attachments (convertToBinary : bool) (items : list ContentItem)
  : list (string * string) :=
  flat_map (fun item =>
              match item with
              | ImageContent data mimeType | AudioContent data mimeType =>
                  if convertToBinary then [(data, mimeType)] else []
              | _ => []
              end) items.

(** The blocks that go to [json.content], in the order of the blocks: a
    text block with its text parsed as JSON when it can be, the other
    blocks as they are. *)
Definition content_blocks (P : Platform) (convertToBinary : bool)
           (items : list ContentItem) : list OutputContent :=
  flat_map (fun item =>
              match item with
              | TextContent text =>
                  [ParsedText (match jsonParse P text with
                               | Some v => v
                               | None => VString text
                               end)]
              | ImageContent _ _ | AudioContent _ _ =>
                  if convertToBinary then [] else [PassedThrough item]
              | OtherContent _ => [PassedThrough item]
              end) items.

Definition is_json_error {B : Type} (item : INodeExecutionData B) : bool :=
  match json item with
  | JsonError _ _ => true
  | JsonContent _ => false
  end.

(* ================================================================== *)
(** * Further scripted collaborators *)
(* ================================================================== *)

Module Fixtures.

(** A remote end that hands out the same page, with a cursor, for ever. *)
Definition looping : Platform :=
  {| URL := string;
     new_URL := Scripted.parse;
     Server := nat;
     sdk_connect := fun _ _ _ s => (None, s);
     sdk_listTools := fun _ s => (inr Scripted.P1, S s);
     sdk_callTool := fun _ _ _ s => (inl (ThrownError CodeAbsent "no tool"), s);
     sdk_close := fun s => (None, s);
     js_String := Scripted.to_text;
     jsonParse := Scripted.parse_json;
     BinaryData := string * string;
     prepareBinaryData := fun data mimeType => inr (data, mimeType) |}.

(** The schema of the tool [update]. *)
Definition update_schema : JSONSchema7 :=
  {| schema_type := Some (TypeName "object");
     schema_properties :=
       Some [("id", ObjectSchema {| prop_type := Some (TypeName "integer");
                                   prop_description := Some "record id";
                                   prop_enum := None |});
             ("strict", BooleanSchema true);
             ("status", ObjectSchema {| prop_type := Some (TypeName "string");
                                       prop_description := None;
                                       prop_enum := Some [VString "open";
                                                          VString "closed"] |});
             ("patch", ObjectSchema {| prop_type := Some (TypeNames ["object"; "null"]);
                                      prop_description := Some "";
                                      prop_enum := None |})];
     schema_required := Some ["id"] |}.

Definition update_tool : McpTool :=
  {| tool_name := "update";
     tool_description := Some "Update a record";
     inputSchema := update_schema |}.

Definition first_page : ListToolsResult :=
  {| tools := [Scripted.tool "list"]; nextCursor := Some "n" |}.

Definition last_page : ListToolsResult :=
  {| tools := [update_tool; Scripted.tool "update"]; nextCursor := None |}.

(** Two pages, the tool [update] on the second. *)
Definition catalog : Scripted.script :=
  {| Scripted.connect_outcome := None;
     Scripted.pages := [first_page; last_page];
     Scripted.call_outcome := inr {| content := [] |};
     Scripted.close_outcome := None |}.

Definition catalog_read : Scripted.script :=
  {| Scripted.connect_outcome := None;
     Scripted.pages := [];
     Scripted.call_outcome := inr {| content := [] |};
     Scripted.close_outcome := None |}.

(** One page, then the listing is rejected. *)
Definition broken_listing : Scripted.script :=
  {| Scripted.connect_outcome := None;
     Scripted.pages := [first_page];
     Scripted.call_outcome := inr {| content := [] |};
     Scripted.close_outcome := None |}.

Definition broken_listing_read : Scripted.script :=
  {| Scripted.connect_outcome := None;
     Scripted.pages := [];
     Scripted.call_outcome := inr {| content := [] |};
     Scripted.close_outcome := None |}.



(** A result with a text block, an image, a resource link and a sound. *)
Definition mixed_content : list ContentItem :=
  [TextContent "42"; ImageContent "AAAA" "image/png";
   OtherContent (VObject [("type", VString "resource_link")]);
   AudioContent "BBBB" "audio/wav"].

Definition mixed_tool : Scripted.script :=
  {| Scripted.connect_outcome := None;
     Scripted.pages := [];
     Scripted.call_outcome := inr {| content := mixed_content |};
     Scripted.close_outcome := None |}.


(** Three input items on a tool that answers; the expression of
    [jsonInput] cannot be evaluated for the second item. *)
Definition unreadable_second (keepGoing : bool) : ExecuteContext :=
  {| ex_authentication := "bearerAuth";
     ex_node := Scripted.node;
     ex_credentials := Scripted.bearer_store;
     ex_inputMode := "json";
     ex_items := 3;
     ex_tool := fun _ => inr "update";
     ex_options :=
       fun _ => inr {| opt_convertToBinary := None; opt_timeout := None |};
     ex_parameters := fun _ => inr (VObject []);
     ex_jsonInput :=
       fun i => if Nat.eqb i 1
                then inl (ThrownError CodeAbsent "Invalid expression")
                else inr (VObject [("id", VNumber (Z.of_nat i))]);
     ex_continueOnFail := keepGoing |}.

Definition unconfigured_run : ExecuteContext :=
  {| ex_authentication := "bearerAuth";
     ex_node := Scripted.node;
     ex_credentials := Scripted.blank_token_store;
     ex_inputMode := "manual";
     ex_items := 1;
     ex_tool := fun _ => inr "update";
     ex_options :=
       fun _ => inr {| opt_convertToBinary := None; opt_timeout := None |};
     ex_parameters := fun _ => inr (VObject []);
     ex_jsonInput := fun _ => inr (VObject []);
     ex_continueOnFail := true |}.

(** An OAuth2 record with its token, padded with blanks. *)
Definition oauth_store : CredentialStore :=
  {| forestMcpApi := LookupRejects (ThrownError CodeAbsent "no credentials");
     forestMcpOAuth2Api :=
       LookupRecord {| oauth_serverUrl := Some " https://x.test/mcp";
                       oauthTokenData := Some {| access_token := Some "tok " |} |} |}.

(** The record node asked for the records of two items; the second
    lookup of [recordId] throws. *)
Definition record_get : RecordNode.Context :=
  {| RecordNode.items := 2;
     RecordNode.resource := inr "record";
     RecordNode.operation := inr "get";
     RecordNode.recordId :=
       fun i => if Nat.eqb i 0 then inr "r1"
                else inl (RecordNode.Value
                            (ThrownError CodeAbsent "No record id"));
     RecordNode.returnAll := fun _ => inr false;
     RecordNode.limit := fun _ => inr 50%Z;
     RecordNode.continueOnFail := true |}.


End Fixtures.

(* ================================================================== *)
(** * Properties of cleanParameters *)
(* ================================================================== *)





Lemma selected_unique : forall (A : Type) (keep : A -> Prop) l out out',
  selected keep l out -> selected keep l out' -> out = out'.
Proof.
  intros A keep l out out' H. revert out'.
  induction H as [|x l l' Hk _ IH|x l l' Hk _ IH]; intros out' H'; inversion H'; subst;
    try contradiction; auto.
  f_equal. now apply IH.
Qed.





































Example cleanParameters_sample :
  cleanParameters
    (VObject [("a", VUndefined);
              ("b", VObject [("c", VObject []); ("d", VUndefined)]);
              ("e", VArray [VNumber 1; VUndefined; VObject []; VNull]);
              ("f", VString "")])
  = VObject [("e", VArray [VNumber 1; VObject []; VNull]); ("f", VString "")].
Proof. reflexivity. Qed.

(* ================================================================== *)
(** * Properties of the string primitives *)
(* ================================================================== *)

Lemma prefix_iff : forall sub s,
  prefix sub s = true <-> exists after, s = (sub ++ after)%string.
Proof.
  induction sub as [|a sub IH]; intros s; simpl.
  - destruct s; split; intros; eauto.
  - destruct s as [|b s].
    + split; [discriminate|intros [after H]; discriminate].
    + simpl. destruct (ascii_dec a b) as [->|Hab].
      * rewrite IH. split; intros [after H]; exists after.
        -- now rewrite H.
        -- now injection H.
      * split; [discriminate|]. intros [after H]. injection H as H1 H2.
        now elim Hab.
Qed.

Lemma includes_iff : forall s sub,
  Js.includes s sub = true <->
  exists before after, s = (before ++ sub ++ after)%string.
Proof.
  induction s as [|c s IH]; intros sub; cbn [Js.includes].
  - rewrite orb_false_r, prefix_iff. split.
    + intros [after H]. now exists "", after.
    + intros [before [after H]]. destruct before; [now exists after|discriminate].
  - rewrite orb_true_iff, prefix_iff, IH. split.
    + intros [[after H]|[before [after H]]].
      * now exists "", after.
      * exists (String c before), after. simpl. now rewrite H.
    + intros [[|b before] [after H]].
      * left. now exists after.
      * right. simpl in H. injection H as _ H. now exists before, after.
Qed.

Lemma length_append : forall a b : string,
  String.length (a ++ b) = String.length a + String.length b.
Proof.
  induction a as [|c a IH]; intros b; simpl; [reflexivity|now rewrite IH].
Qed.

Lemma substring_skip : forall (p s : string) (n : nat),
  substring (String.length p) n (p ++ s) = substring 0 n s.
Proof.
  induction p as [|c p IH]; intros s n; simpl; [reflexivity|apply IH].
Qed.

Lemma substring_all : forall s : string, substring 0 (String.length s) s = s.
Proof.
  induction s as [|c s IH]; simpl; [reflexivity|now rewrite IH].
Qed.

Lemma substring_split : forall (s : string) (n : nat),
  n <= String.length s ->
  s = (substring 0 n s ++ substring n (String.length s - n) s)%string.
Proof.
  induction s as [|c s IH]; intros n Hn; simpl in *.
  - destruct n; [reflexivity|lia].
  - destruct n as [|n]; simpl.
    + now rewrite substring_all.
    + f_equal. apply IH. lia.
Qed.

Lemma endsWith_iff : forall s suffix,
  Js.endsWith s suffix = true <-> exists before, s = (before ++ suffix)%string.
Proof.
  intros s suffix. unfold Js.endsWith.
  rewrite andb_true_iff, Nat.leb_le, String.eqb_eq. split.
  - intros [Hlen Heq]. exists (substring 0 (String.length s - String.length suffix) s).
    pose proof (substring_split s (String.length s - String.length suffix)) as H.
    replace (String.length s - (String.length s - String.length suffix))
      with (String.length suffix) in H by lia.
    rewrite Heq in H. apply H. lia.
  - intros [before ->]. rewrite length_append. split; [lia|].
    replace (String.length before + String.length suffix - String.length suffix)
      with (String.length before) by lia.
    now rewrite substring_skip, substring_all.
Qed.

Lemma all_white_space_trimStart : forall s,
  all_white_space s = true -> Js.trimStart s = "".
Proof.
  induction s as [|c s IH]; simpl; [reflexivity|].
  intros H. apply andb_true_iff in H as [Hc Hs]. rewrite Hc. now apply IH.
Qed.

Lemma all_white_space_trim : forall s,
  all_white_space s = true -> Js.trim s = "".
Proof.
  intros s H. unfold Js.trim. now rewrite all_white_space_trimStart.
Qed.


Lemma trimStart_split : forall s,
  exists before,
    s = (before ++ Js.trimStart s)%string /\ all_white_space before = true.
Proof.
  induction s as [|c s [before [Hs Hb]]]; simpl.
  - now exists "".
  - destruct (Js.is_white_space c) eqn:Hc.
    + exists (String c before). simpl. now rewrite Hc, Hb, <- Hs.
    + now exists "".
Qed.

Lemma trimStart_first : forall s c,
  first_char (Js.trimStart s) = Some c -> Js.is_white_space c = false.
Proof.
  induction s as [|a s IH]; simpl; intros c H; [discriminate|].
  destruct (Js.is_white_space a) eqn:Ha; [now apply IH|].
  simpl in H. now injection H as <-.
Qed.

Lemma trimEnd_split : forall s,
  exists after,
    s = (Js.trimEnd s ++ after)%string /\ all_white_space after = true.
Proof.
  induction s as [|c s [after [Hs Ha]]]; simpl.
  - now exists "".
  - destruct (Js.trimEnd s) as [|a r] eqn:E.
    + simpl in Hs. subst after. destruct (Js.is_white_space c) eqn:Hc.
      * exists (String c s). simpl. now rewrite Hc, Ha.
      * now exists s.
    + exists after. simpl. split; [|exact Ha]. f_equal. exact Hs.
Qed.

Lemma trimEnd_last : forall s c,
  last_char (Js.trimEnd s) = Some c -> Js.is_white_space c = false.
Proof.
  induction s as [|a s IH]; simpl; intros c H; [discriminate|].
  destruct (Js.trimEnd s) as [|b r] eqn:E.
  - destruct (Js.is_white_space a) eqn:Ha; simpl in H; [discriminate|].
    now injection H as <-.
  - apply IH. exact H.
Qed.

Lemma trimEnd_first : forall s c,
  first_char (Js.trimEnd s) = Some c -> first_char s = Some c.
Proof.
  intros [|a s] c; simpl; [discriminate|].
  destruct (Js.trimEnd s); [|trivial].
  destruct (Js.is_white_space a); simpl; [discriminate|trivial].
Qed.

(** [Js.trim] removes white space, and only white space, from both ends. *)
Lemma trim_spec : forall s,
  (exists before after,
      s = (before ++ Js.trim s ++ after)%string
      /\ all_white_space before = true /\ all_white_space after = true)
  /\ (forall c, first_char (Js.trim s) = Some c -> Js.is_white_space c = false)
  /\ (forall c, last_char (Js.trim s) = Some c -> Js.is_white_space c = false).
Proof.
  intros s. unfold Js.trim. split; [|split].
  - destruct (trimStart_split s) as [before [Hs Hb]].
    destruct (trimEnd_split (Js.trimStart s)) as [after [Ht Ha]].
    exists before, after. now rewrite <- Ht.
  - intros c H. apply trimEnd_first in H. now apply trimStart_first in H.
  - apply trimEnd_last.
Qed.

Lemma trimStart_fixed : forall s,
  (forall c, first_char s = Some c -> Js.is_white_space c = false) ->
  Js.trimStart s = s.
Proof.
  intros [|a s] H; simpl; [reflexivity|].
  now rewrite (H a eq_refl).
Qed.

Lemma trimEnd_fixed : forall s,
  (forall c, last_char s = Some c -> Js.is_white_space c = false) ->
  Js.trimEnd s = s.
Proof.
  induction s as [|a s IH]; intros H; [reflexivity|].
  simpl. destruct s as [|b s].
  - simpl. now rewrite (H a eq_refl).
  - rewrite IH by (intros c Hc; apply H; exact Hc). reflexivity.
Qed.

Lemma trim_fixed : forall s,
  (forall c, first_char s = Some c -> Js.is_white_space c = false) ->
  (forall c, last_char s = Some c -> Js.is_white_space c = false) ->
  Js.trim s = s.
Proof.
  intros s Hf Hl. unfold Js.trim. rewrite (trimStart_fixed s Hf).
  now apply trimEnd_fixed.
Qed.

Lemma trim_idempotent : forall s, Js.trim (Js.trim s) = Js.trim s.
Proof.
  intros s. destruct (trim_spec s) as [_ [Hf Hl]]. now apply trim_fixed.
Qed.

Lemma trimStart_padding : forall before s,
  all_white_space before = true ->
  Js.trimStart (before ++ s) = Js.trimStart s.
Proof.
  induction before as [|c before IH]; intros s H; simpl in *; [reflexivity|].
  apply andb_true_iff in H as [Hc Hb]. rewrite Hc. now apply IH.
Qed.

Lemma trimEnd_all_white_space : forall s,
  all_white_space s = true -> Js.trimEnd s = "".
Proof.
  induction s as [|c s IH]; simpl; intros H; [reflexivity|].
  apply andb_true_iff in H as [Hc Hs]. now rewrite (IH Hs), Hc.
Qed.

Lemma trimEnd_padding : forall s after,
  all_white_space after = true ->
  Js.trimEnd (s ++ after) = Js.trimEnd s.
Proof.
  induction s as [|c s IH]; intros after H; simpl.
  - now apply trimEnd_all_white_space.
  - now rewrite (IH after H).
Qed.

Lemma trimStart_append : forall s after,
  Js.trimStart s <> "" ->
  Js.trimStart (s ++ after) = (Js.trimStart s ++ after)%string.
Proof.
  induction s as [|c s IH]; intros after H; simpl in *; [now elim H|].
  destruct (Js.is_white_space c); [now apply IH|reflexivity].
Qed.

Lemma trimStart_empty : forall s,
  Js.trimStart s = "" -> all_white_space s = true.
Proof.
  induction s as [|c s IH]; simpl; intros H; [reflexivity|].
  destruct (Js.is_white_space c); [now apply IH|discriminate].
Qed.

Lemma all_white_space_app : forall a b,
  all_white_space (a ++ b) = all_white_space a && all_white_space b.
Proof.
  induction a as [|c a IH]; intros b; simpl; [reflexivity|].
  now rewrite IH, andb_assoc.
Qed.

Lemma trim_padding : forall before s after,
  all_white_space before = true -> all_white_space after = true ->
  Js.trim (before ++ s ++ after) = Js.trim s.
Proof.
  intros before s after Hb Ha. unfold Js.trim.
  rewrite (trimStart_padding before _ Hb).
  destruct (Js.trimStart s) as [|c t] eqn:E.
  - assert (Hs : all_white_space (s ++ after) = true).
    { rewrite all_white_space_app, Ha, (trimStart_empty s E). reflexivity. }
    now rewrite (all_white_space_trimStart _ Hs).
  - rewrite trimStart_append by (rewrite E; discriminate).
    rewrite E. now apply trimEnd_padding.
Qed.

Lemma first_char_app : forall a b,
  first_char (a ++ b) = match first_char a with Some c => Some c | None => first_char b end.
Proof. intros [|c a] b; reflexivity. Qed.

Lemma last_char_app : forall a b,
  b <> "" -> last_char (a ++ b) = last_char b.
Proof.
  induction a as [|c a IH]; intros b Hb; simpl; [reflexivity|].
  rewrite <- (IH b Hb). destruct (a ++ b)%string eqn:E; [|reflexivity].
  destruct a; simpl in E; [now elim Hb|discriminate].
Qed.

Lemma white_space_iff : forall c, Js.is_white_space c = true <-> white_space c.
Proof.
  intros c. unfold Js.is_white_space, white_space, white_space_code_units.
  cbv zeta. simpl In.
  rewrite !orb_true_iff, andb_true_iff, !Nat.leb_le, !Nat.eqb_eq. lia.
Qed.

Lemma blank_iff : forall s, all_white_space s = true <-> blank s.
Proof.
  induction s as [|c s IH]; simpl; [tauto|].
  now rewrite andb_true_iff, white_space_iff, IH.
Qed.

Lemma not_white_space : forall c, ~ white_space c -> Js.is_white_space c = false.
Proof.
  intros c H. destruct (Js.is_white_space c) eqn:E; [|reflexivity].
  now apply white_space_iff in E.
Qed.

(* ================================================================== *)
(** * Properties of getAuthHeadersAndEndpoint *)
(* ================================================================== *)

Lemma with_mcp_suffix_present : forall serverUrl,
  (exists before, serverUrl = (before ++ "/mcp")%string) ->
  with_mcp_suffix serverUrl = serverUrl.
Proof.
  intros serverUrl H. unfold with_mcp_suffix.
  apply endsWith_iff in H. now rewrite H.
Qed.

Lemma with_mcp_suffix_absent : forall serverUrl,
  ~ (exists before, serverUrl = (before ++ "/mcp")%string) ->
  with_mcp_suffix serverUrl = (serverUrl ++ "/mcp")%string.
Proof.
  intros serverUrl H. unfold with_mcp_suffix.
  destruct (Js.endsWith serverUrl "/mcp") eqn:E; [|reflexivity].
  apply endsWith_iff in E. contradiction.
Qed.

Lemma bearer_record_resolution : forall store cred,
  forestMcpApi store = LookupRecord cred ->
  getAuthHeadersAndEndpoint store "bearerAuth" =
  match trimmed_or_empty (bearer_token cred) with
  | EmptyString => empty_endpoint
  | token =>
      {| headers := Some [("Authorization", ("Bearer " ++ token)%string)];
         endpointUrl := Some (with_mcp_suffix (trimmed_or_empty (bearer_serverUrl cred))) |}
  end.
Proof.
  intros store cred H. unfold getAuthHeadersAndEndpoint. simpl. rewrite H.
  now destruct (trimmed_or_empty (bearer_token cred)).
Qed.

Lemma stored_as_trimmed : forall field s,
  stored_as field s -> trimmed_or_empty field = s.
Proof.
  intros [raw|] s; simpl; [|now intros ->].
  intros [[before [after [-> [Hb Ha]]]] [Hf Hl]].
  rewrite trim_padding by now apply blank_iff.
  apply trim_fixed; intros c Hc; apply not_white_space; eauto.
Qed.

Lemma trimmed_stored_as : forall field, stored_as field (trimmed_or_empty field).
Proof.
  intros [raw|]; simpl; [|reflexivity].
  destruct (trim_spec raw) as [[before [after [E [Hb Ha]]]] [Hf Hl]].
  split; [|split].
  - exists before, after. split; [exact E|]. split; now apply blank_iff.
  - intros c Hc Hw. apply white_space_iff in Hw. rewrite (Hf c Hc) in Hw. discriminate.
  - intros c Hc Hw. apply white_space_iff in Hw. rewrite (Hl c Hc) in Hw. discriminate.
Qed.

(** C5.  In bearer mode the stored server URL and token are read without
    the white space around them (an absent field as the empty string); an
    empty token gives the empty result; otherwise the header is
    [Authorization: Bearer <token>] and the endpoint is the server URL,
    followed by [/mcp] unless it ends with it already.  Every stored field
    can be read in this way.  The record
    [{serverUrl: "https://x.test", token: "abc"}] resolves to
    [https://x.test/mcp] with [Bearer abc], and an OAuth2 record without
    [oauthTokenData] resolves to the empty result. *)
Theorem bearer_resolution :
  (forall store cred serverUrl token,
      forestMcpApi store = LookupRecord cred ->
      stored_as (bearer_serverUrl cred) serverUrl ->
      stored_as (bearer_token cred) token ->
      let resolved := getAuthHeadersAndEndpoint store "bearerAuth" in
      (token = "" -> resolved = empty_endpoint)
      /\ (token <> "" ->
          headers resolved = Some [("Authorization", ("Bearer " ++ token)%string)]
          /\ ((exists before, serverUrl = (before ++ "/mcp")%string) ->
              endpointUrl resolved = Some serverUrl)
          /\ (~ (exists before, serverUrl = (before ++ "/mcp")%string) ->
              endpointUrl resolved = Some (serverUrl ++ "/mcp")%string)))
  /\ (forall cred, exists serverUrl token,
        stored_as (bearer_serverUrl cred) serverUrl
        /\ stored_as (bearer_token cred) token)
  /\ (forall oauth,
        getAuthHeadersAndEndpoint
          {| forestMcpApi :=
               LookupRecord {| bearer_serverUrl := Some "https://x.test";
                               bearer_token := Some "abc" |};
             forestMcpOAuth2Api := oauth |}
          "bearerAuth"
        = {| headers := Some [("Authorization", "Bearer abc")];
             endpointUrl := Some "https://x.test/mcp" |})
  /\ (forall store cred,
        forestMcpOAuth2Api store = LookupRecord cred ->
        oauthTokenData cred = None ->
        getAuthHeadersAndEndpoint store "mcpOAuth2Api" = empty_endpoint).
Proof.
  split; [|split; [|split]].
  - intros store cred serverUrl token H Hurl Htok resolved.
    subst resolved. rewrite (bearer_record_resolution store cred H).
    rewrite (stored_as_trimmed _ _ Hurl), (stored_as_trimmed _ _ Htok). split.
    + now intros ->.
    + intros Hne. destruct token as [|c token]; [now elim Hne|]. simpl.
      split; [reflexivity|]. split; intros Hs; f_equal.
      * now apply with_mcp_suffix_present.
      * now apply with_mcp_suffix_absent.
  - intros cred. exists (trimmed_or_empty (bearer_serverUrl cred)),
                        (trimmed_or_empty (bearer_token cred)).
    split; apply trimmed_stored_as.
  - reflexivity.
  - intros store cred H Hnone. unfold getAuthHeadersAndEndpoint. simpl.
    now rewrite H, Hnone.
Qed.

Ltac blank_string := cbv; intuition lia.
Ltac solid_end :=
  let c := fresh "c" in let H := fresh "H" in
  intros c H; simpl in H; injection H as <-; cbv; intuition lia.

Lemma bearer_resolution_witness :
  getAuthHeadersAndEndpoint
    (bearer_record_store "   " "  " LookupNothing) "bearerAuth" = empty_endpoint
  /\ headers (getAuthHeadersAndEndpoint
                (bearer_record_store " https://x.test  " "  abc " LookupNothing)
                "bearerAuth")
     = Some [("Authorization", "Bearer abc")]
  /\ endpointUrl (getAuthHeadersAndEndpoint
                    (bearer_record_store " https://x.test  " "  abc " LookupNothing)
                    "bearerAuth")
     = Some "https://x.test/mcp"
  /\ endpointUrl (getAuthHeadersAndEndpoint
                    (bearer_record_store "https://x.test/mcp " "abc" LookupNothing)
                    "bearerAuth")
     = Some "https://x.test/mcp"
  /\ getAuthHeadersAndEndpoint Scripted.oauth_pending_store "mcpOAuth2Api"
     = empty_endpoint.
Proof.
  destruct bearer_resolution as [Hbearer [_ [_ Hoauth]]].
  assert (Hblank : stored_as (Some "   ") "").
  { split; [|split]; [|discriminate|discriminate].
    exists "   ", "". split; [reflexivity|]. split; blank_string. }
  assert (Hblank' : stored_as (Some "  ") "").
  { split; [|split]; [|discriminate|discriminate].
    exists "  ", "". split; [reflexivity|]. split; blank_string. }
  assert (Hurl : stored_as (Some " https://x.test  ") "https://x.test").
  { split; [|split]; [|solid_end|solid_end].
    exists " ", "  ". split; [reflexivity|]. split; blank_string. }
  assert (Htok : stored_as (Some "  abc ") "abc").
  { split; [|split]; [|solid_end|solid_end].
    exists "  ", " ". split; [reflexivity|]. split; blank_string. }
  assert (Hurl' : stored_as (Some "https://x.test/mcp ") "https://x.test/mcp").
  { split; [|split]; [|solid_end|solid_end].
    exists "", " ". split; [reflexivity|]. split; blank_string. }
  assert (Htok' : stored_as (Some "abc") "abc").
  { split; [|split]; [|solid_end|solid_end].
    exists "", "". split; [reflexivity|]. split; blank_string. }
  split; [|split; [|split; [|split]]].
  - apply (Hbearer (bearer_record_store "   " "  " LookupNothing) _ "" ""
             eq_refl Hblank Hblank'). reflexivity.
  - apply (Hbearer (bearer_record_store " https://x.test  " "  abc " LookupNothing)
             _ "https://x.test" "abc" eq_refl Hurl Htok). discriminate.
  - apply (Hbearer (bearer_record_store " https://x.test  " "  abc " LookupNothing)
             _ "https://x.test" "abc" eq_refl Hurl Htok); [discriminate|].
    intros [before H].
    apply (f_equal (fun s => Js.endsWith s "/mcp")) in H.
    assert (E : Js.endsWith (before ++ "/mcp") "/mcp" = true)
      by (apply endsWith_iff; now exists before).
    rewrite E in H. discriminate.
  - apply (Hbearer (bearer_record_store "https://x.test/mcp " "abc" LookupNothing)
             _ "https://x.test/mcp" "abc" eq_refl Hurl' Htok'); [discriminate|].
    now exists "https://x.test".
  - apply (Hoauth Scripted.oauth_pending_store _ eq_refl eq_refl).
Defined.

(** C10.  In bearer mode a record whose token is not empty once trimmed,
    and whose server URL is absent or made of white space only, does not
    resolve to the empty result: the endpoint is [/mcp] and the
    [Authorization] header is set.  Only the token decides whether the
    result is empty. *)
Theorem bearer_blank_serverUrl : forall store cred token,
  forestMcpApi store = LookupRecord cred ->
  bearer_token cred = Some token ->
  Js.trim token <> "" ->
  (bearer_serverUrl cred = None
   \/ exists u, bearer_serverUrl cred = Some u /\ all_white_space u = true) ->
  getAuthHeadersAndEndpoint store "bearerAuth"
  = {| headers := Some [("Authorization", ("Bearer " ++ Js.trim token)%string)];
       endpointUrl := Some "/mcp" |}
  /\ getAuthHeadersAndEndpoint store "bearerAuth" <> empty_endpoint.
Proof.
  intros store cred token Hrec Htok Hne Hurl.
  assert (E : getAuthHeadersAndEndpoint store "bearerAuth"
              = {| headers := Some [("Authorization", ("Bearer " ++ Js.trim token)%string)];
                   endpointUrl := Some "/mcp" |}).
  { rewrite (bearer_record_resolution store cred Hrec), Htok. simpl.
    assert (Hs : trimmed_or_empty (bearer_serverUrl cred) = "").
    { destruct Hurl as [->|[u [-> Hu]]]; simpl; [reflexivity|].
      now apply all_white_space_trim. }
    rewrite Hs. destruct (Js.trim token); [now elim Hne|reflexivity]. }
  split; [exact E|]. rewrite E. discriminate.
Qed.

Lemma bearer_blank_serverUrl_witness :
  getAuthHeadersAndEndpoint Scripted.blank_server_store "bearerAuth"
  = {| headers := Some [("Authorization", "Bearer abc")];
       endpointUrl := Some "/mcp" |}.
Proof.
  apply (bearer_blank_serverUrl Scripted.blank_server_store _ " abc" eq_refl eq_refl).
  - discriminate.
  - right. exists "   ". split; reflexivity.
Defined.

(* ================================================================== *)
(** * Properties of the error classification and of the URL handling *)
(* ================================================================== *)

Lemma errorHasCode_iff : forall e status,
  errorHasCode e status = true <-> carries e status.
Proof.
  intros e status. unfold errorHasCode, carries.
  rewrite andb_true_iff, orb_true_iff.
  assert (Hcode : (match code_of e with
                   | CodeNumber n => Z.eqb n status
                   | _ => false
                   end = true) <-> code_of e = CodeNumber status);
    [|assert (Hmsg : (match message_of e with
                      | MessageString m => Js.includes m (Js.toString status)
                      | _ => false
                      end = true)
                     <-> exists before after,
                         message_of e
                         = MessageString (before ++ Js.toString status ++ after));
      [|tauto]].
  - destruct (code_of e) as [|n|]; split; try discriminate.
    + intros H. apply Z.eqb_eq in H. now subst.
    + intros H. injection H as ->. apply Z.eqb_refl.
  - destruct (message_of e) as [| |m].
    + split; [discriminate|]. intros [? [? H]]. discriminate.
    + split; [discriminate|]. intros [? [? H]]. discriminate.
    + rewrite includes_iff. split; intros [before [after H]]; exists before, after.
      * now rewrite H.
      * now injection H.
Qed.

Lemma scheme_char_match : forall p c,
  In p ["h"; "t"; "p"; "s"; ":"; "/"]%char ->
  Ascii.eqb (Js.ascii_lower p) (Js.ascii_lower c) = true <-> Js.lower_char c = p.
Proof.
  intros p c H. simpl in H.
  repeat (destruct H as [<-|H]; [|]); try contradiction;
    destruct c as [[] [] [] [] [] [] [] []]; vm_compute; split; intros E;
    solve [reflexivity | discriminate E].
Qed.

Lemma match_literal_i_iff : forall lit, scheme_literal lit ->
  forall s rest,
    Js.match_literal_i lit s = Some rest <->
    exists m, s = (m ++ rest)%string /\ Js.toLowerCase m = lit.
Proof.
  induction lit as [|a lit IH]; intros Hlit s rest; simpl.
  - split.
    + intros H. injection H as ->. now exists "".
    + intros [[|c m] [-> H]]; [reflexivity|discriminate].
  - destruct Hlit as [Ha Hlit]. destruct s as [|b s].
    + split; [discriminate|]. intros [[|c m] [H1 H2]]; discriminate.
    + destruct (Ascii.eqb (Js.ascii_lower a) (Js.ascii_lower b)) eqn:E.
      * apply (scheme_char_match a b Ha) in E. rewrite (IH Hlit). split.
        -- intros [m [-> Hm]]. exists (String b m). simpl. now rewrite E, Hm.
        -- intros [[|c m] [H1 H2]]; [discriminate|].
           simpl in H1, H2. injection H1 as <- ->. injection H2 as _ H2.
           now exists m.
      * split; [discriminate|]. intros [[|c m] [H1 H2]]; [discriminate|].
        simpl in H1, H2. injection H1 as <- ->. injection H2 as H2 _.
        apply (scheme_char_match a b Ha) in H2. congruence.
Qed.

Lemma toLowerCase_app : forall a b,
  Js.toLowerCase (a ++ b) = (Js.toLowerCase a ++ Js.toLowerCase b)%string.
Proof.
  induction a as [|c a IH]; intros b; simpl; [reflexivity|now rewrite IH].
Qed.

Lemma toLowerCase_app_inv : forall a b s,
  Js.toLowerCase s = (a ++ b)%string ->
  exists m1 m2,
    s = (m1 ++ m2)%string /\ Js.toLowerCase m1 = a /\ Js.toLowerCase m2 = b.
Proof.
  induction a as [|c a IH]; intros b s H; simpl in H.
  - now exists "", s.
  - destruct s as [|d s]; [discriminate|]. simpl in H. injection H as Hd Hs.
    destruct (IH b s Hs) as [m1 [m2 [-> [H1 H2]]]].
    exists (String d m1), m2. simpl. now rewrite Hd, H1.
Qed.

Lemma string_app_assoc : forall a b c : string,
  ((a ++ b) ++ c = a ++ (b ++ c))%string.
Proof.
  induction a as [|x a IH]; intros b c; simpl; [reflexivity|now rewrite IH].
Qed.

Lemma match_literal_i_intro : forall lit m rest,
  scheme_literal lit -> Js.toLowerCase m = lit ->
  Js.match_literal_i lit (m ++ rest) = Some rest.
Proof.
  intros lit m rest Hlit Hm. apply (match_literal_i_iff lit Hlit). now exists m.
Qed.

Lemma scheme_literal_http : scheme_literal "http".
Proof. simpl; intuition. Qed.

Lemma scheme_literal_s : scheme_literal "s".
Proof. simpl; intuition. Qed.

Lemma scheme_literal_sep : scheme_literal "://".
Proof. simpl; intuition. Qed.

(** The pattern accepts the strings that start with [http://] or
    [https://] in any letter case, and no other. *)
Lemma test_http_scheme_iff : forall input,
  Js.test_http_scheme input = true <-> has_http_scheme input.
Proof.
  intros input. unfold Js.test_http_scheme, has_http_scheme. split.
  - destruct (Js.match_literal_i "http" input) as [rest|] eqn:E1; [|discriminate].
    apply (match_literal_i_iff _ scheme_literal_http) in E1 as [m1 [-> H1]].
    intros H. apply orb_true_iff in H as [H|H].
    + destruct (Js.match_literal_i "s" rest) as [rest'|] eqn:E2; [|discriminate].
      apply (match_literal_i_iff _ scheme_literal_s) in E2 as [m2 [-> H2]].
      destruct (Js.match_literal_i "://" rest') as [rest''|] eqn:E3; [|discriminate].
      apply (match_literal_i_iff _ scheme_literal_sep) in E3 as [m3 [-> H3]].
      exists (m1 ++ m2 ++ m3)%string, rest''. split.
      * now rewrite !string_app_assoc.
      * right. now rewrite !toLowerCase_app, H1, H2, H3.
    + destruct (Js.match_literal_i "://" rest) as [rest'|] eqn:E3; [|discriminate].
      apply (match_literal_i_iff _ scheme_literal_sep) in E3 as [m3 [-> H3]].
      exists (m1 ++ m3)%string, rest'. split.
      * now rewrite string_app_assoc.
      * left. now rewrite toLowerCase_app, H1, H3.
  - intros [scheme [rest [-> [H|H]]]].
    + apply (toLowerCase_app_inv "http" "://") in H as [m1 [m3 [-> [H1 H3]]]].
      rewrite string_app_assoc.
      rewrite (match_literal_i_intro "http" m1 _ scheme_literal_http H1).
      rewrite (match_literal_i_intro "://" m3 _ scheme_literal_sep H3).
      apply orb_true_r.
    + apply (toLowerCase_app_inv "http" "s://") in H as [m1 [m' [-> [H1 H']]]].
      apply (toLowerCase_app_inv "s" "://") in H' as [m2 [m3 [-> [H2 H3]]]].
      rewrite !string_app_assoc.
      rewrite (match_literal_i_intro "http" m1 _ scheme_literal_http H1).
      rewrite (match_literal_i_intro "s" m2 _ scheme_literal_s H2).
      rewrite (match_literal_i_intro "://" m3 _ scheme_literal_sep H3).
      reflexivity.
Qed.

Lemma connectMcpClient_invalid_url :
  forall (P : Platform) hdrs input name version (w : world P) e,
    new_URL P (withProtocol input) = inl e ->
    connectMcpClient hdrs input name version w
    = (Returned (ResultError {| cerr_type := invalid_url; cerr_error := e |}), w).
Proof.
  intros P hdrs input name version w e H.
  unfold connectMcpClient, normalizeAndValidateUrl. now rewrite H.
Qed.

Lemma connectMcpClient_parsed :
  forall (P : Platform) hdrs input name version (w : world P) url,
    new_URL P (withProtocol input) = inr url ->
    connectMcpClient hdrs input name version w
    = let client := {| client_name := name; client_version := Js.toString version |} in
      match sdk_connect P client url hdrs (server w) with
      | (None, s) =>
          (Returned (ResultOk client), record_event SessionOpened s w)
      | (Some e, s) =>
          (Returned (ResultError (classify e)), record_event ConnectRejected s w)
      end.
Proof.
  intros P hdrs input name version w url H.
  unfold connectMcpClient, normalizeAndValidateUrl. rewrite H. simpl.
  unfold bind, connect.
  destruct (sdk_connect P _ url hdrs (server w)) as [[e|] s]; reflexivity.
Qed.

(** C8.  A string that does not start with [http://] or [https://] (in
    any letter case) is given the prefix [https://], a string that does is
    left as it is, and the result is what is parsed: when the parser
    refuses it the connection fails with the kind [invalid_url], without a
    connection attempt.  ["example.com/mcp"] becomes
    ["https://example.com/mcp"]. *)
Theorem url_normalization :
  (forall input, ~ has_http_scheme input ->
                 withProtocol input = ("https://" ++ input)%string)
  /\ (forall input, has_http_scheme input -> withProtocol input = input)
  /\ withProtocol "example.com/mcp" = "https://example.com/mcp"
  /\ (forall (P : Platform) input url,
        new_URL P (withProtocol input) = inr url ->
        normalizeAndValidateUrl input = ResultOk url)
  /\ (forall (P : Platform) hdrs input name version (w : world P) e,
        new_URL P (withProtocol input) = inl e ->
        normalizeAndValidateUrl (P := P) input = ResultError e
        /\ connectMcpClient hdrs input name version w
           = (Returned (ResultError {| cerr_type := invalid_url; cerr_error := e |}), w)).
Proof.
  split; [|split; [|split; [|split]]].
  - intros input H. unfold withProtocol.
    destruct (Js.test_http_scheme input) eqn:E; [|reflexivity].
    apply test_http_scheme_iff in E. contradiction.
  - intros input H. unfold withProtocol.
    apply test_http_scheme_iff in H. now rewrite H.
  - reflexivity.
  - intros P input url H. unfold normalizeAndValidateUrl. now rewrite H.
  - intros P hdrs input name version w e H. split.
    + unfold normalizeAndValidateUrl. now rewrite H.
    + now apply connectMcpClient_invalid_url.
Qed.

Lemma url_normalization_witness :
  withProtocol "example.com/mcp" = "https://example.com/mcp"
  /\ withProtocol "HTTP://x.test/mcp" = "HTTP://x.test/mcp"
  /\ normalizeAndValidateUrl (P := Scripted.platform) "example.com/mcp"
     = ResultOk "https://example.com/mcp"
  /\ fst (connectMcpClient None "exa mple.com" "forest" 1
            (Scripted.start Scripted.healthy))
     = Returned (ResultError {| cerr_type := invalid_url;
                                cerr_error := ThrownError CodeNotInteger "Invalid URL" |}).
Proof.
  destruct url_normalization as [Hadd [Hkeep [_ [Hok Hbad]]]].
  split; [|split; [|split]].
  - apply (Hadd "example.com/mcp"). intros H.
    apply test_http_scheme_iff in H. discriminate H.
  - apply (Hkeep "HTTP://x.test/mcp"). exists "HTTP://", "x.test/mcp".
    split; [reflexivity|left; reflexivity].
  - apply (Hok Scripted.platform "example.com/mcp"). reflexivity.
  - destruct (Hbad Scripted.platform None "exa mple.com" "forest" 1%Z
                (Scripted.start Scripted.healthy)
                (ThrownError CodeNotInteger "Invalid URL") eq_refl) as [_ H].
    now rewrite H.
Defined.

Lemma classify_cases : forall e,
  (carries e 401 \/ carries e 403 -> cerr_type (classify e) = auth)
  /\ (carries e 404 -> ~ carries e 401 -> ~ carries e 403 ->
      cerr_type (classify e) = not_found)
  /\ (~ carries e 401 -> ~ carries e 403 -> ~ carries e 404 ->
      cerr_type (classify e) = connection)
  /\ cerr_type (classify e) <> invalid_url
  /\ cerr_error (classify e) = e.
Proof.
  intros e. unfold classify, isUnauthorizedError, isForbiddenError, isNotFoundError.
  pose proof (errorHasCode_iff e 401) as H401.
  pose proof (errorHasCode_iff e 403) as H403.
  pose proof (errorHasCode_iff e 404) as H404.
  destruct (errorHasCode e 401) eqn:E1; destruct (errorHasCode e 403) eqn:E3;
    destruct (errorHasCode e 404) eqn:E4; simpl;
    repeat split; try reflexivity; try discriminate; intros;
    try (exfalso; intuition congruence); intuition congruence.
Qed.

(** C6, as amended.  A failure of the connection attempt is classified
    [auth] when the error carries 401 or 403, [not_found] when it carries
    404 and neither 401 nor 403, and [connection] when it carries none of
    the three, where an error carries a status in a numeric [code] field
    or inside the text of its [message].  The kind is never
    [invalid_url], the cause is the error itself, and an attempt that
    succeeds gives the client and no error. *)
Theorem connect_failure_classification :
  (forall e,
      (carries e 401 \/ carries e 403 -> cerr_type (classify e) = auth)
      /\ (carries e 404 -> ~ carries e 401 -> ~ carries e 403 ->
          cerr_type (classify e) = not_found)
      /\ (~ carries e 401 -> ~ carries e 403 -> ~ carries e 404 ->
          cerr_type (classify e) = connection)
      /\ cerr_type (classify e) <> invalid_url
      /\ cerr_error (classify e) = e)
  /\ (forall (P : Platform) hdrs input name version (w : world P) url e s,
        new_URL P (withProtocol input) = inr url ->
        sdk_connect P {| client_name := name; client_version := Js.toString version |}
                    url hdrs (server w) = (Some e, s) ->
        fst (connectMcpClient hdrs input name version w)
        = Returned (ResultError (classify e)))
  /\ (forall (P : Platform) hdrs input name version (w : world P) url s,
        new_URL P (withProtocol input) = inr url ->
        sdk_connect P {| client_name := name; client_version := Js.toString version |}
                    url hdrs (server w) = (None, s) ->
        fst (connectMcpClient hdrs input name version w)
        = Returned (ResultOk {| client_name := name;
                                client_version := Js.toString version |})).
Proof.
  split; [exact classify_cases|]. split.
  - intros P hdrs input name version w url e s Hurl Hc.
    rewrite (connectMcpClient_parsed P hdrs input name version w url Hurl).
    simpl. now rewrite Hc.
  - intros P hdrs input name version w url s Hurl Hc.
    rewrite (connectMcpClient_parsed P hdrs input name version w url Hurl).
    simpl. now rewrite Hc.
Qed.

Lemma connect_failure_classification_witness :
  cerr_type (classify (ThrownError (CodeNumber 403) "Forbidden")) = auth
  /\ cerr_type (classify (ThrownError CodeAbsent "Error POSTing to endpoint (HTTP 404)"))
     = not_found
  /\ cerr_type (classify (ThrownError (CodeNumber 500) "Internal Server Error"))
     = connection
  /\ fst (connectMcpClient None "https://x.test/mcp" "forest" 1
            (Scripted.start Scripted.unauthorized))
     = Returned (ResultError
                   (classify (ThrownError (CodeNumber 401)
                                "Error POSTing to endpoint (HTTP 401)")))
  /\ fst (connectMcpClient None "https://x.test/mcp" "forest" 1
            (Scripted.start Scripted.healthy))
     = Returned (ResultOk {| client_name := "forest"; client_version := "1" |}).
Proof.
  destruct connect_failure_classification as [Hkind [Hfail Hok]].
  assert (Hnot : forall e status, errorHasCode e status = false -> ~ carries e status).
  { intros e status E H. apply errorHasCode_iff in H. congruence. }
  split; [|split; [|split; [|split]]].
  - apply Hkind. right. split; [reflexivity|now left].
  - apply Hkind.
    + split; [reflexivity|]. right.
      now exists "Error POSTing to endpoint (HTTP ", ")".
    + now apply Hnot.
    + now apply Hnot.
  - apply Hkind; now apply Hnot.
  - exact (Hfail Scripted.platform None "https://x.test/mcp" "forest" 1%Z
             (Scripted.start Scripted.unauthorized) "https://x.test/mcp"
             _ Scripted.unauthorized eq_refl eq_refl).
  - exact (Hok Scripted.platform None "https://x.test/mcp" "forest" 1%Z
             (Scripted.start Scripted.healthy) "https://x.test/mcp"
             Scripted.healthy eq_refl eq_refl).
Defined.

(** C6 as stated fails where an error carries 404 together with 401: the
    transport error below has the numeric code 404 and a message that
    holds 401, and it is classified [auth]. *)
Lemma not_found_classified_auth :
  carries Scripted.route_missing 404
  /\ fst (connectMcpClient None "https://x.test/mcp" "forest" 1
            (Scripted.start Scripted.unrouted))
     = Returned (ResultError {| cerr_type := auth;
                                cerr_error := Scripted.route_missing |})
  /\ cerr_type (classify Scripted.route_missing) <> not_found.
Proof.
  split; [|split].
  - split; [reflexivity|now left].
  - reflexivity.
  - discriminate.
Qed.

(* ================================================================== *)
(** * Properties of getAllTools *)
(* ================================================================== *)

Lemma length_cursors_asked : forall pages cursor,
  List.length (cursors_asked cursor pages) = List.length pages.
Proof.
  induction pages as [|page pages IH]; intros cursor; simpl; [reflexivity|].
  now rewrite IH.
Qed.

Lemma getAllTools_serves : forall (P : Platform) s cursor pages s',
  serves P s cursor pages s' ->
  forall fuel client l,
    List.length pages <= fuel ->
    getAllTools fuel client cursor {| server := s; log := l |}
    = (Returned (flat_map tools pages),
       {| server := s';
          log := l ++ map ListToolsCalled (cursors_asked cursor pages) |}).
Proof.
  intros P s cursor pages s' H.
  induction H as [s cursor page s' Hcall Hlast
                 |s cursor page s1 rest s' Hcall Hmore Hrest IH];
    intros fuel client l Hfuel; simpl in Hfuel.
  - destruct fuel as [|fuel]; [lia|]. simpl.
    unfold bind, listTools. simpl. rewrite Hcall, Hlast. unfold ret. simpl.
    now rewrite app_nil_r.
  - destruct fuel as [|fuel]; [lia|]. simpl.
    unfold bind at 1. unfold listTools. simpl. rewrite Hcall, Hmore.
    unfold bind, record_event. simpl.
    rewrite (IH fuel client (l ++ [ListToolsCalled cursor])) by lia.
    unfold ret. now rewrite <- app_assoc.
Qed.

(** C7.  When the remote end serves a finite chain of pages, each page but
    the last carrying the cursor of the next, [getAllTools] returns the
    tools of the pages in the order they are fetched, and it calls
    [listTools] once for each page: first without a cursor, then with the
    cursor of the page before.  As many units of fuel as there are pages
    are enough. *)
Theorem getAllTools_concatenates :
  forall (P : Platform) (s s' : Server P) pages fuel client l,
    serves P s None pages s' ->
    List.length pages <= fuel ->
    exists calls,
      getAllTools fuel client None {| server := s; log := l |}
      = (Returned (List.concat (map tools pages)),
         {| server := s'; log := l ++ map ListToolsCalled calls |})
      /\ calls = cursors_asked None pages
      /\ List.length calls = List.length pages.
Proof.
  intros P s s' pages fuel client l Hserves Hfuel.
  exists (cursors_asked None pages). split; [|split].
  - rewrite <- flat_map_concat_map. now apply getAllTools_serves.
  - reflexivity.
  - apply length_cursors_asked.
Qed.

Lemma getAllTools_concatenates_witness :
  getAllTools 3 {| client_name := "forest"; client_version := "1" |} None
              (Scripted.start Scripted.healthy)
  = (Returned (tools Scripted.P1 ++ tools Scripted.P2 ++ tools Scripted.P3),
     Build_world Scripted.platform Scripted.drained
       [ListToolsCalled None;
        ListToolsCalled (Some "c1");
        ListToolsCalled (Some "c2")]).
Proof.
  destruct (getAllTools_concatenates Scripted.platform
              Scripted.healthy Scripted.drained
              [Scripted.P1; Scripted.P2; Scripted.P3] 3
              {| client_name := "forest"; client_version := "1" |} [])
    as [calls [Hrun [Hcalls _]]].
  - eapply serves_next; [reflexivity|reflexivity|].
    eapply serves_next; [reflexivity|reflexivity|].
    eapply serves_last; reflexivity.
  - simpl. lia.
  - subst calls. exact Hrun.
Defined.

(* ================================================================== *)
(** * Properties of the schema mapper *)
(* ================================================================== *)

(** The fields of the entries of [properties], boolean schemas skipped. *)
Lemma convertProperties_acc :
  forall (P : Platform) requiredFields entries acc,
    convertProperties (P := P) requiredFields entries acc
    = acc ++ flat_map
               (fun kv => match snd kv with
                          | BooleanSchema _ => []
                          | ObjectSchema ps => [convertProperty (P := P) requiredFields (fst kv) ps]
                          end)
               entries.
Proof.
  intros P requiredFields entries.
  induction entries as [|[key [b|ps]] rest IH]; intros acc; simpl.
  - now rewrite app_nil_r.
  - apply IH.
  - rewrite IH. now rewrite <- app_assoc.
Qed.

Lemma convertProperties_In :
  forall (P : Platform) requiredFields entries key ps,
    In (key, ObjectSchema ps) entries ->
    In (convertProperty (P := P) requiredFields key ps)
       (convertProperties (P := P) requiredFields entries []).
Proof.
  intros P requiredFields entries key ps H.
  rewrite convertProperties_acc. simpl. apply in_flat_map.
  exists (key, ObjectSchema ps). split; [exact H|]. simpl. now left.
Qed.

(** C9.  A property that declares a non-empty enum is mapped to a field of
    type [options], whatever its declared type, with one option for each
    enum value in the order of the enum, named by the string conversion of
    the value and holding the value; and that field is in the result of
    the mapper for every object schema that has the property. *)
Theorem enum_becomes_options :
  forall (P : Platform) requiredFields key ps first others,
    prop_enum ps = Some (first :: others) ->
    field_type (convertProperty (P := P) requiredFields key ps) = ft_options
    /\ field_options (convertProperty (P := P) requiredFields key ps)
       = Some (map (fun v => {| option_name := js_String P v; option_value := v |})
                   (first :: others))
    /\ (forall schema properties,
           schema_type schema = Some (TypeName "object") ->
           schema_properties schema = Some properties ->
           In (key, ObjectSchema ps) properties ->
           In (convertProperty (P := P) requiredFields key ps)
              (convertJsonSchemaToResourceMapperFields (P := P) schema requiredFields)).
Proof.
  intros P requiredFields key ps first others Henum.
  unfold convertProperty. rewrite Henum. simpl.
  split; [reflexivity|]. split; [reflexivity|].
  intros schema properties Htype Hprops Hin.
  unfold convertJsonSchemaToResourceMapperFields. rewrite Htype, Hprops. simpl.
  pose proof (convertProperties_In P requiredFields properties key ps Hin) as H.
  unfold convertProperty in H. rewrite Henum in H. exact H.
Qed.

Lemma enum_becomes_options_witness :
  let ps := {| prop_type := Some (TypeName "integer");
               prop_description := Some "size";
               prop_enum := Some [VNumber 1; VString "x"; VNull] |} in
  field_type (convertProperty (P := Scripted.platform) ["a"] "a" ps) = ft_options
  /\ field_options (convertProperty (P := Scripted.platform) ["a"] "a" ps)
     = Some [{| option_name := "1"; option_value := VNumber 1 |};
             {| option_name := "x"; option_value := VString "x" |};
             {| option_name := "null"; option_value := VNull |}].
Proof.
  intros ps.
  destruct (enum_becomes_options Scripted.platform ["a"] "a" ps
              (VNumber 1) [VString "x"; VNull] eq_refl) as [Htype [Hopts _]].
  split; [exact Htype|exact Hopts].
Defined.

(* ================================================================== *)
(** * The session log of the three operations *)
(* ================================================================== *)

(** What [connectMcpClient] writes to the log: nothing when the URL is
    refused, and otherwise one event that tells whether a session was
    opened. *)
Lemma connectMcpClient_log :
  forall (P : Platform) hdrs input name version (w : world P),
    exists r w',
      connectMcpClient hdrs input name version w = (Returned r, w')
      /\ match r with
         | ResultOk _ => log w' = log w ++ [SessionOpened]
         | ResultError _ => log w' = log w \/ log w' = log w ++ [ConnectRejected]
         end.
Proof.
  intros P hdrs input name version w.
  destruct (new_URL P (withProtocol input)) as [e|url] eqn:Hurl.
  - rewrite (connectMcpClient_invalid_url P hdrs input name version w e Hurl).
    eexists _, _. split; [reflexivity|]. now left.
  - rewrite (connectMcpClient_parsed P hdrs input name version w url Hurl). simpl.
    destruct (sdk_connect P _ url hdrs (server w)) as [[e|] s];
      eexists _, _; (split; [reflexivity|]); simpl; auto.
Qed.

Lemma getAllTools_log : forall (P : Platform) fuel client cursor (w : world P),
  exists calls,
    log (snd (getAllTools fuel client cursor w)) = log w ++ map ListToolsCalled calls.
Proof.
  intros P fuel client. induction fuel as [|fuel IH]; intros cursor w; simpl.
  - exists []. simpl. now rewrite app_nil_r.
  - unfold bind at 1. unfold listTools.
    destruct (sdk_listTools P cursor (server w)) as [[e|page] s]; simpl.
    + now exists [cursor].
    + destruct (Js.truthy (nextCursor page)).
      * unfold bind.
        destruct (IH (nextCursor page) (record_event (ListToolsCalled cursor) s w))
          as [calls Hcalls].
        destruct (getAllTools fuel client (nextCursor page) _) as [[rest|e|] w'];
          simpl in *; exists (cursor :: calls); rewrite Hcalls; simpl;
          now rewrite <- app_assoc.
      * now exists [cursor].
Qed.

Lemma open_sessions_listTools : forall calls opened,
  open_sessions (map ListToolsCalled calls ++ [CloseCalled]) opened = Nat.pred opened.
Proof.
  induction calls as [|c calls IH]; intros opened; simpl; [reflexivity|apply IH].
Qed.

(** [getTools] closes the session it opens: on every path the log grows by
    nothing, by a refused connection, or by a session that is opened, asked
    for one page and closed. *)
Lemma getTools_closes_session :
  forall (P : Platform) this filter token (w : world P),
    exists evs,
      log (snd (getTools this filter token w)) = log w ++ evs
      /\ (evs = [] \/ evs = [ConnectRejected]
          \/ evs = [SessionOpened; ListToolsCalled token; CloseCalled])
      /\ open_sessions evs 0 = 0
      /\ fst (getTools this filter token w) <> Pending.
Proof.
  intros P this filter token w. unfold getTools.
  destruct (Js.truthy _); simpl.
  2:{ exists []. rewrite app_nil_r. repeat split; auto. discriminate. }
  unfold bind, try_finally.
  destruct (connectMcpClient_log P
              (headers (getAuthHeadersAndEndpoint (lo_credentials this)
                                                  (lo_authentication this)))
              (match endpointUrl (getAuthHeadersAndEndpoint (lo_credentials this)
                                                            (lo_authentication this))
               with Some u => u | None => "" end)
              (node_type (lo_node this)) (node_typeVersion (lo_node this)) w)
    as [r [w' [Hrun Hlog]]].
  rewrite Hrun. destruct r as [session|err]; simpl.
  - exists [SessionOpened; ListToolsCalled token; CloseCalled].
    unfold listTools, close, ret.
    destruct (sdk_listTools P token (server w')) as [[e|page] s1]; simpl;
      destruct (sdk_close P s1) as [[e'|] s2]; simpl; rewrite Hlog;
      rewrite <- !app_assoc; simpl;
      (split; [reflexivity|split; [auto|split; [reflexivity|discriminate]]]).
  - destruct Hlog as [Hlog|Hlog]; rewrite Hlog.
    + exists []. rewrite app_nil_r. repeat split; auto. discriminate.
    + exists [ConnectRejected]. repeat split; auto. discriminate.
Qed.

(** [getToolParameters] closes the session it opens whenever it ends. *)
Lemma getToolParameters_closes_session :
  forall (P : Platform) fuel this (w : world P),
    fst (getToolParameters fuel this w) <> Pending ->
    exists evs,
      log (snd (getToolParameters fuel this w)) = log w ++ evs
      /\ (evs = [] \/ evs = [ConnectRejected]
          \/ exists calls,
               evs = SessionOpened :: map ListToolsCalled calls ++ [CloseCalled])
      /\ open_sessions evs 0 = 0.
Proof.
  intros P fuel this w. unfold getToolParameters.
  destruct (Js.truthy (lo_tool_value this)); simpl.
  2:{ intros _. exists []. rewrite app_nil_r. auto. }
  destruct (Js.truthy _); simpl.
  2:{ intros _. exists []. rewrite app_nil_r. auto. }
  unfold bind, try_finally.
  destruct (connectMcpClient_log P
              (headers (getAuthHeadersAndEndpoint (lo_credentials this)
                                                  (lo_authentication this)))
              (match endpointUrl (getAuthHeadersAndEndpoint (lo_credentials this)
                                                            (lo_authentication this))
               with Some u => u | None => "" end)
              (node_type (lo_node this)) (node_typeVersion (lo_node this)) w)
    as [r [w' [Hrun Hlog]]].
  rewrite Hrun. destruct r as [session|err]; simpl.
  - destruct (getAllTools_log P fuel session None w') as [calls Hcalls].
    destruct (getAllTools fuel session None w') as [[all|e|] w1]; simpl in *.
    + intros _. exists (SessionOpened :: map ListToolsCalled calls ++ [CloseCalled]).
      split; [|split].
      * unfold close, ret.
        destruct (find _ all); simpl;
          destruct (sdk_close P (server w1)) as [[e|] s2]; simpl;
          rewrite Hcalls, Hlog; rewrite <- !app_assoc; reflexivity.
      * right. right. now exists calls.
      * simpl. now rewrite open_sessions_listTools.
    + intros _. exists (SessionOpened :: map ListToolsCalled calls ++ [CloseCalled]).
      split; [|split].
      * unfold close. destruct (sdk_close P (server w1)) as [[e'|] s2]; simpl;
          rewrite Hcalls, Hlog; rewrite <- !app_assoc; reflexivity.
      * right. right. now exists calls.
      * simpl. now rewrite open_sessions_listTools.
    + intros H. now elim H.
  - intros _. destruct Hlog as [Hlog|Hlog]; rewrite Hlog.
    + exists []. rewrite app_nil_r. auto.
    + exists [ConnectRejected]. auto.
Qed.

Lemma splitContent_world :
  forall (P : Platform) convertToBinary items binaryIndex binary content (w : world P),
    snd (splitContent convertToBinary items binaryIndex binary content w) = w.
Proof.
  intros P convertToBinary items.
  induction items as [|item items IH]; intros binaryIndex binary content w; simpl.
  - reflexivity.
  - destruct item as [text|data mimeType|data mimeType|other]; try apply IH.
    + destruct convertToBinary; [|apply IH].
      destruct (prepareBinaryData P data mimeType); [reflexivity|apply IH].
    + destruct convertToBinary; [|apply IH].
      destruct (prepareBinaryData P data mimeType); [reflexivity|apply IH].
Qed.

Lemma runItem_log :
  forall (P : Platform) this client inputMode itemIndex (w : world P),
    exists calls,
      log (snd (runItem this client inputMode itemIndex w)) = log w ++ calls
      /\ forallb is_callTool calls = true.
Proof.
  intros P this client inputMode itemIndex w.
  assert (Hnone : exists calls, log w = log w ++ calls
                                /\ forallb is_callTool calls = true)
    by (exists []; now rewrite app_nil_r).
  unfold runItem, bind, getNodeParameter.
  destruct (ex_tool this itemIndex) as [e|tool]; simpl; [exact Hnone|].
  destruct (ex_options this itemIndex) as [e|options]; simpl; [exact Hnone|].
  assert (Hcall : forall parameters,
             exists calls,
               log (snd ((result <- callTool client tool parameters
                                      (match opt_timeout options with
                                       | Some 0%Z => None
                                       | t => t
                                       end) ;;
                          let convertToBinary :=
                            match opt_convertToBinary options with
                            | Some b => b
                            | None => true
                            end in
                          split <- splitContent convertToBinary (content result) 0 [] [] ;;
                          ret {| json := JsonContent (match snd split with
                                                      | [] => None
                                                      | c => Some c
                                                      end);
                                 binary := match fst split with
                                           | [] => None
                                           | b => Some b
                                           end;
                                 pairedItem := itemIndex |}) w))
               = log w ++ calls
               /\ forallb is_callTool calls = true).
  { intros parameters. unfold bind, callTool.
    destruct (sdk_callTool P _ _ _ (server w)) as [[e|result] s]; simpl.
    - eexists [_]. split; reflexivity.
    - match goal with
      | |- context [splitContent ?c ?i ?n ?b ?k ?w0] =>
          pose proof (splitContent_world P c i n b k w0) as Hw;
          destruct (splitContent c i n b k w0) as [[split|e|] w1]
      end; simpl in Hw; subst w1; simpl; eexists [_]; split; reflexivity. }
  destruct (String.eqb inputMode "manual").
  - destruct (ex_parameters this itemIndex) as [e|parameters]; simpl;
      [exact Hnone|apply Hcall].
  - destruct (ex_jsonInput this itemIndex) as [e|parameters]; simpl;
      [exact Hnone|apply Hcall].
Qed.

Lemma runItems_log :
  forall (P : Platform) this client inputMode remaining itemIndex returnData
         (w : world P),
    exists calls,
      log (snd (runItems this client inputMode remaining itemIndex returnData w))
      = log w ++ calls
      /\ forallb is_callTool calls = true.
Proof.
  intros P this client inputMode remaining.
  induction remaining as [|remaining IH]; intros itemIndex returnData w; simpl.
  - exists []. now rewrite app_nil_r.
  - unfold bind, try_catch.
    destruct (runItem_log P this client inputMode itemIndex w) as [call [Hcall Hc]].
    destruct (runItem this client inputMode itemIndex w) as [[item|e|] w1];
      simpl in Hcall.
    + unfold ret at 1.
      destruct (IH (S itemIndex) (returnData ++ [item]) w1) as [calls [Hcalls Hall]].
      exists (call ++ calls). rewrite Hcalls, Hcall, <- app_assoc.
      now rewrite forallb_app, Hc, Hall.
    + destruct (ex_continueOnFail this).
      * unfold ret at 1.
        match goal with
        | |- context [runItems _ _ _ _ _ ?acc w1] =>
            destruct (IH (S itemIndex) acc w1) as [calls [Hcalls Hall]]
        end.
        exists (call ++ calls). rewrite Hcalls, Hcall, <- app_assoc.
        now rewrite forallb_app, Hc, Hall.
      * unfold throw. simpl. now exists call.
    + simpl. now exists call.
Qed.

Lemma execute_log : forall (P : Platform) this (w : world P),
  exists evs,
    log (snd (execute this w)) = log w ++ evs
    /\ (evs = [] \/ evs = [ConnectRejected]
        \/ exists calls, evs = SessionOpened :: calls
                         /\ forallb is_callTool calls = true).
Proof.
  intros P this w. unfold execute.
  destruct (Js.truthy _); simpl.
  2:{ exists []. rewrite app_nil_r. auto. }
  unfold bind at 1.
  destruct (connectMcpClient_log P
              (headers (getAuthHeadersAndEndpoint (ex_credentials this)
                                                  (ex_authentication this)))
              (match endpointUrl (getAuthHeadersAndEndpoint (ex_credentials this)
                                                            (ex_authentication this))
               with Some u => u | None => "" end)
              (node_type (ex_node this)) (node_typeVersion (ex_node this)) w)
    as [r [w' [Hrun Hlog]]].
  rewrite Hrun. destruct r as [session|err]; simpl.
  - unfold bind.
    destruct (runItems_log P this session (ex_inputMode this) (ex_items this) 0 [] w')
      as [calls [Hcalls Hall]].
    exists (SessionOpened :: calls). split.
    + destruct (runItems this session (ex_inputMode this) (ex_items this) 0 [] w')
        as [[data|e|] w1]; simpl in *; rewrite Hcalls, Hlog, <- app_assoc; reflexivity.
    + right. right. now exists calls.
  - destruct Hlog as [Hlog|Hlog]; rewrite Hlog.
    + exists []. rewrite app_nil_r. auto.
    + exists [ConnectRejected]. auto.
Qed.

Lemma existsb_close_calls : forall calls,
  forallb is_callTool calls = true -> existsb is_close calls = false.
Proof.
  induction calls as [|ev calls IH]; simpl; [reflexivity|].
  intros H. apply andb_true_iff in H as [Hev Hall].
  rewrite (IH Hall). now destruct ev.
Qed.

Lemma open_sessions_calls : forall calls opened,
  forallb is_callTool calls = true -> open_sessions calls opened = opened.
Proof.
  induction calls as [|ev calls IH]; simpl; intros opened H; [reflexivity|].
  apply andb_true_iff in H as [Hev Hall].
  destruct ev; try discriminate. now apply IH.
Qed.

(** C1 fails for [execute].  Whatever the platform and the context,
    [execute] never calls [close]: every session it opens is still open
    when it returns or throws.  With bearer credentials, a connection that
    succeeds and one input item, it returns the item and the log holds the
    opening of the session and the tool call only.  ([getTools] and
    [getToolParameters] do close theirs, see [getTools_closes_session] and
    [getToolParameters_closes_session].) *)
Theorem execute_leaves_session_open :
  (forall (P : Platform) this (w : world P),
      exists evs,
        log (snd (execute this w)) = log w ++ evs
        /\ existsb is_close evs = false
        /\ open_sessions evs 0 = List.length (filter is_open evs))
  /\ execute Scripted.one_item (Scripted.start Scripted.healthy)
     = (Returned [[{| json := JsonContent (Some [ParsedText (VNumber 42)]);
                      binary := None;
                      pairedItem := 0 |}]],
        Build_world Scripted.platform Scripted.healthy
          [SessionOpened; CallToolCalled "update" (VObject [("id", VNumber 7)]) None])
  /\ open_sessions
       [SessionOpened; CallToolCalled "update" (VObject [("id", VNumber 7)]) None] 0
     = 1.
Proof.
  split; [|split; reflexivity].
  intros P this w. destruct (execute_log P this w) as [evs [Hlog Hevs]].
  exists evs. split; [exact Hlog|].
  destruct Hevs as [->|[->|[calls [-> Hcalls]]]]; simpl; auto.
  rewrite (existsb_close_calls calls Hcalls).
  rewrite (open_sessions_calls calls 1 Hcalls). split; [reflexivity|].
  f_equal. clear Hlog. induction calls as [|ev calls IH]; simpl in *; [reflexivity|].
  apply andb_true_iff in Hcalls as [Hev Hall].
  destruct ev; try discriminate. simpl. now apply IH.
Qed.

(* ================================================================== *)
(** * Failures during discovery *)
(* ================================================================== *)

(** C2, as amended.  When no endpoint is resolved, [getTools] returns no
    results and [getToolParameters] no fields, and neither touches the
    session.  When the connection fails, with any of the four kinds,
    [getTools] throws the error that [mapToNodeOperationError] builds for
    the kind, and [getToolParameters] returns no fields. *)
Theorem discovery_failure_handling :
  (forall (P : Platform) this filter token (w : world P),
      Js.truthy (endpointUrl (discovery_endpoint this)) = false ->
      getTools this filter token w
      = (Returned {| results := []; paginationToken := None |}, w))
  /\ (forall (P : Platform) fuel this (w : world P),
        Js.truthy (endpointUrl (discovery_endpoint this)) = false ->
        getToolParameters fuel this w = (Returned {| fields := [] |}, w))
  /\ (forall (P : Platform) this filter token (w : world P) url err,
        endpointUrl (discovery_endpoint this) = Some url ->
        url <> "" ->
        fst (connectMcpClient (headers (discovery_endpoint this)) url
               (node_type (lo_node this)) (node_typeVersion (lo_node this)) w)
        = Returned (ResultError err) ->
        fst (getTools this filter token w) = Rejected (mapToNodeOperationError err))
  /\ (forall (P : Platform) fuel this (w : world P) url err,
        endpointUrl (discovery_endpoint this) = Some url ->
        url <> "" ->
        fst (connectMcpClient (headers (discovery_endpoint this)) url
               (node_type (lo_node this)) (node_typeVersion (lo_node this)) w)
        = Returned (ResultError err) ->
        fst (getToolParameters fuel this w) = Returned {| fields := [] |}).
Proof.
  unfold discovery_endpoint. split; [|split; [|split]].
  - intros P this filter token w H. unfold getTools. now rewrite H.
  - intros P fuel this w H. unfold getToolParameters. rewrite H. simpl.
    now destruct (Js.truthy (lo_tool_value this)).
  - intros P this filter token w url err Hurl Hne Hc. unfold getTools.
    rewrite Hurl. destruct url as [|c url]; [now elim Hne|]. simpl.
    unfold bind.
    destruct (connectMcpClient _ _ _ _ w) as [[r|e|] w']; simpl in Hc;
      try discriminate. injection Hc as ->. reflexivity.
  - intros P fuel this w url err Hurl Hne Hc. unfold getToolParameters.
    destruct (Js.truthy (lo_tool_value this)); simpl; [|reflexivity].
    rewrite Hurl. destruct url as [|c url]; [now elim Hne|]. simpl.
    unfold bind.
    destruct (connectMcpClient _ _ _ _ w) as [[r|e|] w']; simpl in Hc;
      try discriminate. injection Hc as ->. reflexivity.
Qed.

Lemma discovery_failure_handling_witness :
  getTools Scripted.unconfigured None None (Scripted.start Scripted.healthy)
  = (Returned {| results := []; paginationToken := None |},
     Scripted.start Scripted.healthy)
  /\ getToolParameters 3 Scripted.unconfigured (Scripted.start Scripted.healthy)
     = (Returned {| fields := [] |}, Scripted.start Scripted.healthy)
  /\ fst (getTools Scripted.discovery None None (Scripted.start Scripted.unauthorized))
     = Rejected (NodeOperationError
                   "Could not connect to your Forest MCP server. Authentication failed."
                   None None)
  /\ fst (getToolParameters 3 Scripted.discovery (Scripted.start Scripted.unauthorized))
     = Returned {| fields := [] |}.
Proof.
  destruct discovery_failure_handling as [H1 [H2 [H3 H4]]].
  split; [|split; [|split]].
  - apply (H1 Scripted.platform). reflexivity.
  - apply (H2 Scripted.platform). reflexivity.
  - apply (H3 Scripted.platform Scripted.discovery None None
              (Scripted.start Scripted.unauthorized) "https://x.test/mcp"
              (classify (ThrownError (CodeNumber 401)
                           "Error POSTing to endpoint (HTTP 401)")));
      [reflexivity|discriminate|reflexivity].
  - apply (H4 Scripted.platform 3 Scripted.discovery
              (Scripted.start Scripted.unauthorized) "https://x.test/mcp"
              (classify (ThrownError (CodeNumber 401)
                           "Error POSTing to endpoint (HTTP 401)")));
      [reflexivity|discriminate|reflexivity].
Defined.

(** C2 as stated fails for [getToolParameters]: the endpoint is resolved,
    the connection attempt is refused with 401 and classified [auth], and
    the method returns the empty list of fields instead of throwing. *)
Lemma getToolParameters_hides_connection_failure :
  endpointUrl (discovery_endpoint Scripted.discovery) = Some "https://x.test/mcp"
  /\ fst (connectMcpClient (headers (discovery_endpoint Scripted.discovery))
            "https://x.test/mcp" "forest" 1 (Scripted.start Scripted.unauthorized))
     = Returned (ResultError
                   {| cerr_type := auth;
                      cerr_error := ThrownError (CodeNumber 401)
                                      "Error POSTing to endpoint (HTTP 401)" |})
  /\ getToolParameters 3 Scripted.discovery (Scripted.start Scripted.unauthorized)
     = (Returned {| fields := [] |},
        Build_world Scripted.platform Scripted.unauthorized [ConnectRejected]).
Proof. repeat split. Qed.

(* ================================================================== *)
(** * Examples *)
(* ================================================================== *)

Example trim_sample : Js.trim "  abc " = "abc".
Proof. reflexivity. Qed.

Example endsWith_sample :
  Js.endsWith "https://x.test/mcp" "/mcp" = true /\ Js.endsWith "mcp" "/mcp" = false.
Proof. split; reflexivity. Qed.

Example includes_sample : Js.includes "Error POSTing (HTTP 401)" "401" = true.
Proof. reflexivity. Qed.

Example test_http_scheme_sample :
  Js.test_http_scheme "HTTPS://x" = true
  /\ Js.test_http_scheme "example.com/mcp" = false
  /\ Js.test_http_scheme "http:/x" = false.
Proof. repeat split. Qed.

(** The search of [getTools] reads one page, filters it and closes. *)
Example getTools_sample :
  getTools Scripted.discovery (Some "CRE") None (Scripted.start Scripted.healthy)
  = (Returned {| results := [{| item_name := "create";
                                item_value := "create";
                                item_description := None |}];
                 paginationToken := Some "c1" |},
     Build_world Scripted.platform
       {| Scripted.connect_outcome := None;
          Scripted.pages := [Scripted.P2; Scripted.P3];
          Scripted.call_outcome := Scripted.call_outcome Scripted.healthy;
          Scripted.close_outcome := None |}
       [SessionOpened; ListToolsCalled None; CloseCalled]).
Proof. reflexivity. Qed.

(** The schema lookup reads the three pages and closes. *)
Example getToolParameters_sample :
  getToolParameters 3 Scripted.discovery (Scripted.start Scripted.healthy)
  = (Returned {| fields := [] |},
     Build_world Scripted.platform Scripted.drained
       [SessionOpened; ListToolsCalled None; ListToolsCalled (Some "c1");
        ListToolsCalled (Some "c2"); CloseCalled]).
Proof. reflexivity. Qed.

(* ================================================================== *)
(** * Credential resolution: invariants *)
(* ================================================================== *)

Lemma with_mcp_suffix_ends : forall serverUrl,
  exists before, with_mcp_suffix serverUrl = (before ++ "/mcp")%string.
Proof.
  intros serverUrl. unfold with_mcp_suffix.
  destruct (Js.endsWith serverUrl "/mcp") eqn:E.
  - now apply endsWith_iff.
  - now exists serverUrl.
Qed.

Lemma with_mcp_suffix_idempotent : forall serverUrl,
  with_mcp_suffix (with_mcp_suffix serverUrl) = with_mcp_suffix serverUrl.
Proof.
  intros serverUrl. apply with_mcp_suffix_present, with_mcp_suffix_ends.
Qed.

Lemma suffixed_not_empty : forall before, (before ++ "/mcp")%string <> "".
Proof. intros [|c b]; discriminate. Qed.

Lemma with_mcp_suffix_trimmed : forall s,
  Js.trim (with_mcp_suffix (Js.trim s)) = with_mcp_suffix (Js.trim s).
Proof.
  intros s. unfold with_mcp_suffix.
  destruct (Js.endsWith (Js.trim s) "/mcp"); [apply trim_idempotent|].
  destruct (trim_spec s) as [_ [Hf Hl]].
  apply trim_fixed.
  - intros c. rewrite first_char_app.
    destruct (first_char (Js.trim s)) as [a|] eqn:E.
    + intros H. injection H as <-. now apply Hf.
    + simpl. intros H. now injection H as <-.
  - intros c. rewrite last_char_app by discriminate. simpl.
    intros H. now injection H as <-.
Qed.

Lemma resolution_cases : forall store authentication,
  getAuthHeadersAndEndpoint store authentication = empty_endpoint
  \/ exists token serverUrl,
       token <> "" /\ Js.trim token = token
       /\ getAuthHeadersAndEndpoint store authentication
          = {| headers := Some [("Authorization", ("Bearer " ++ token)%string)];
               endpointUrl := Some (with_mcp_suffix serverUrl) |}.
Proof.
  intros store authentication. unfold getAuthHeadersAndEndpoint.
  destruct (String.eqb authentication "bearerAuth").
  - destruct (forestMcpApi store) as [e| |cred]; auto.
    destruct (bearer_token cred) as [t|]; simpl; auto.
    destruct (Js.trim t) as [|c t'] eqn:E; simpl; auto.
    right. exists (String c t'), (trimmed_or_empty (bearer_serverUrl cred)).
    split; [discriminate|]. split; [|reflexivity].
    rewrite <- E. apply trim_idempotent.
  - destruct (forestMcpOAuth2Api store) as [e| |cred]; auto.
    destruct (oauthTokenData cred) as [[[t|]]|]; simpl; auto.
    destruct (Js.trim t) as [|c t'] eqn:E; simpl; auto.
    right. exists (String c t'), (trimmed_or_empty (oauth_serverUrl cred)).
    split; [discriminate|]. split; [|reflexivity].
    rewrite <- E. apply trim_idempotent.
Qed.

(** X1.  Whatever the store and the authentication mode, the resolved
    endpoint is all or nothing: it is empty, or it has the single header
    [Authorization: Bearer <token>] with a token that is not empty and has
    no white space around it, together with an endpoint that ends with
    [/mcp].  So the test [!endpointUrl] of the callers holds exactly for
    the empty result, and the headers are absent exactly when the endpoint
    is. *)
Theorem resolution_all_or_nothing : forall store authentication,
  let resolved := getAuthHeadersAndEndpoint store authentication in
  (resolved = empty_endpoint
   \/ exists token before,
        token <> "" /\ Js.trim token = token
        /\ headers resolved = Some [("Authorization", ("Bearer " ++ token)%string)]
        /\ endpointUrl resolved = Some (before ++ "/mcp")%string)
  /\ (Js.truthy (endpointUrl resolved) = false <-> resolved = empty_endpoint)
  /\ (headers resolved = None <-> endpointUrl resolved = None).
Proof.
  intros store authentication resolved. subst resolved.
  destruct (resolution_cases store authentication)
    as [E|[token [serverUrl [Hne [Htrim E]]]]]; rewrite E.
  - split; [now left|]. split; split; reflexivity.
  - destruct (with_mcp_suffix_ends serverUrl) as [before Hb]. rewrite Hb. simpl.
    split; [right; now exists token, before|].
    split; split; try discriminate.
    destruct before; discriminate.
Qed.

(** X2.  In OAuth2 mode a stored record is resolved like a bearer record,
    on the access token of [oauthTokenData]: the server URL and the access
    token are trimmed, an empty trimmed token (or none) gives the empty
    result, and otherwise the header is [Authorization: Bearer <token>] and
    the endpoint is the trimmed server URL, followed by [/mcp] unless it
    ends with it already. *)
Theorem oauth2_resolution : forall store cred,
  forestMcpOAuth2Api store = LookupRecord cred ->
  let serverUrl := trimmed_or_empty (oauth_serverUrl cred) in
  let accessToken := trimmed_or_empty (stored_access_token cred) in
  let resolved := getAuthHeadersAndEndpoint store "mcpOAuth2Api" in
  (accessToken = "" -> resolved = empty_endpoint)
  /\ (accessToken <> "" ->
      headers resolved = Some [("Authorization", ("Bearer " ++ accessToken)%string)]
      /\ ((exists before, serverUrl = (before ++ "/mcp")%string) ->
          endpointUrl resolved = Some serverUrl)
      /\ (~ (exists before, serverUrl = (before ++ "/mcp")%string) ->
          endpointUrl resolved = Some (serverUrl ++ "/mcp")%string)).
Proof.
  intros store cred H serverUrl accessToken resolved.
  subst resolved. unfold getAuthHeadersAndEndpoint. simpl. rewrite H.
  fold (stored_access_token cred). fold accessToken. fold serverUrl.
  split.
  - now intros ->.
  - intros Hne. destruct accessToken as [|c t]; [now elim Hne|]. simpl.
    split; [reflexivity|]. split; intros Hs; f_equal.
    + now apply with_mcp_suffix_present.
    + now apply with_mcp_suffix_absent.
Qed.

Lemma oauth2_resolution_witness :
  getAuthHeadersAndEndpoint Fixtures.oauth_store "mcpOAuth2Api"
  = {| headers := Some [("Authorization", "Bearer tok")];
       endpointUrl := Some "https://x.test/mcp" |}.
Proof.
  destruct (oauth2_resolution Fixtures.oauth_store _ eq_refl) as [_ H].
  destruct H as [Hh [Hu _]]; [discriminate|].
  assert (Hu' := Hu (ex_intro _ "https://x.test" eq_refl)).
  destruct (getAuthHeadersAndEndpoint Fixtures.oauth_store "mcpOAuth2Api").
  simpl in *. now rewrite Hh, Hu'.
Defined.

(** X3.  Every authentication mode other than [bearerAuth] is resolved as
    [mcpOAuth2Api] (the [default] of the [switch]); bearer mode never reads
    the OAuth2 credentials and OAuth2 mode never reads the bearer ones; and
    a lookup that is rejected, or that yields no record, gives the empty
    result in both modes. *)
Theorem resolution_modes :
  (forall store authentication,
      authentication <> "bearerAuth" ->
      getAuthHeadersAndEndpoint store authentication
      = getAuthHeadersAndEndpoint store "mcpOAuth2Api")
  /\ (forall bearer oauth oauth',
        getAuthHeadersAndEndpoint
          {| forestMcpApi := bearer; forestMcpOAuth2Api := oauth |} "bearerAuth"
        = getAuthHeadersAndEndpoint
            {| forestMcpApi := bearer; forestMcpOAuth2Api := oauth' |} "bearerAuth")
  /\ (forall bearer bearer' oauth,
        getAuthHeadersAndEndpoint
          {| forestMcpApi := bearer; forestMcpOAuth2Api := oauth |} "mcpOAuth2Api"
        = getAuthHeadersAndEndpoint
            {| forestMcpApi := bearer'; forestMcpOAuth2Api := oauth |} "mcpOAuth2Api")
  /\ (forall store,
        (forall cred, forestMcpApi store <> LookupRecord cred) ->
        getAuthHeadersAndEndpoint store "bearerAuth" = empty_endpoint)
  /\ (forall store,
        (forall cred, forestMcpOAuth2Api store <> LookupRecord cred) ->
        getAuthHeadersAndEndpoint store "mcpOAuth2Api" = empty_endpoint).
Proof.
  split; [|split; [|split; [|split]]].
  - intros store authentication H. unfold getAuthHeadersAndEndpoint.
    destruct (String.eqb authentication "bearerAuth") eqn:E; [|reflexivity].
    apply String.eqb_eq in E. contradiction.
  - reflexivity.
  - reflexivity.
  - intros store H. unfold getAuthHeadersAndEndpoint. simpl.
    destruct (forestMcpApi store) as [e| |cred]; try reflexivity.
    now elim (H cred).
  - intros store H. unfold getAuthHeadersAndEndpoint. simpl.
    destruct (forestMcpOAuth2Api store) as [e| |cred]; try reflexivity.
    now elim (H cred).
Qed.

Lemma resolution_modes_witness :
  getAuthHeadersAndEndpoint Fixtures.oauth_store "headerAuth"
  = getAuthHeadersAndEndpoint Fixtures.oauth_store "mcpOAuth2Api"
  /\ getAuthHeadersAndEndpoint Fixtures.oauth_store "bearerAuth" = empty_endpoint
  /\ getAuthHeadersAndEndpoint Scripted.bearer_store "mcpOAuth2Api" = empty_endpoint.
Proof.
  destruct resolution_modes as [Hdefault [_ [_ [Hbearer Hoauth]]]].
  split; [|split].
  - apply Hdefault. discriminate.
  - apply Hbearer. discriminate.
  - apply Hoauth. discriminate.
Defined.

(** X4.  White space around the stored server URL and around the stored
    token does not change what a bearer record resolves to. *)
Theorem resolution_ignores_padding :
  forall serverUrl token before after before' after' oauth,
    all_white_space before = true -> all_white_space after = true ->
    all_white_space before' = true -> all_white_space after' = true ->
    getAuthHeadersAndEndpoint
      (bearer_record_store (before ++ serverUrl ++ after)
                           (before' ++ token ++ after') oauth) "bearerAuth"
    = getAuthHeadersAndEndpoint (bearer_record_store serverUrl token oauth) "bearerAuth".
Proof.
  intros serverUrl token before after before' after' oauth Hb Ha Hb' Ha'.
  unfold getAuthHeadersAndEndpoint, bearer_record_store. simpl.
  now rewrite (trim_padding before serverUrl after Hb Ha),
              (trim_padding before' token after' Hb' Ha').
Qed.

Lemma resolution_ignores_padding_witness :
  getAuthHeadersAndEndpoint
    (bearer_record_store "  https://x.test " " abc  " LookupNothing) "bearerAuth"
  = getAuthHeadersAndEndpoint
      (bearer_record_store "https://x.test" "abc" LookupNothing) "bearerAuth".
Proof.
  exact (resolution_ignores_padding "https://x.test" "abc" "  " " " " " "  "
           LookupNothing eq_refl eq_refl eq_refl eq_refl).
Defined.

(** X5.  Storing the resolved endpoint as the server URL changes nothing:
    an endpoint that already carries [/mcp] is resolved to itself, with the
    same header, so the suffix is never added twice. *)
Theorem resolved_endpoint_is_stable : forall serverUrl token oauth endpoint,
  endpointUrl (getAuthHeadersAndEndpoint
                 (bearer_record_store serverUrl token oauth) "bearerAuth")
  = Some endpoint ->
  getAuthHeadersAndEndpoint (bearer_record_store endpoint token oauth) "bearerAuth"
  = getAuthHeadersAndEndpoint (bearer_record_store serverUrl token oauth) "bearerAuth".
Proof.
  intros serverUrl token oauth endpoint.
  unfold getAuthHeadersAndEndpoint, bearer_record_store. simpl.
  destruct (Js.trim token) as [|c t]; simpl; [discriminate|].
  intros H. injection H as <-.
  now rewrite with_mcp_suffix_trimmed, with_mcp_suffix_idempotent.
Qed.

Lemma resolved_endpoint_is_stable_witness :
  getAuthHeadersAndEndpoint
    (bearer_record_store "https://x.test/mcp" "abc" LookupNothing) "bearerAuth"
  = getAuthHeadersAndEndpoint
      (bearer_record_store " https://x.test" "abc" LookupNothing) "bearerAuth".
Proof.
  exact (resolved_endpoint_is_stable " https://x.test" "abc" LookupNothing
           "https://x.test/mcp" eq_refl).
Defined.

(** X6.  The earlier revision of [getAuthHeadersAndEndpoint], which does
    not trim, agrees with the current one on every store whose strings
    have no white space around them.  On a token made of white space only
    they differ: the current revision gives the empty result, the earlier
    one sends the blank token in the header. *)
Theorem earlier_revision_agreement :
  (forall store authentication,
      (forall cred, forestMcpApi store = LookupRecord cred ->
                    tidy (bearer_serverUrl cred) /\ tidy (bearer_token cred)) ->
      (forall cred, forestMcpOAuth2Api store = LookupRecord cred ->
                    tidy (oauth_serverUrl cred) /\ tidy (stored_access_token cred)) ->
      Earlier.getAuthHeadersAndEndpoint store authentication
      = getAuthHeadersAndEndpoint store authentication)
  /\ (forall store cred token,
        forestMcpApi store = LookupRecord cred ->
        bearer_token cred = Some token ->
        token <> "" -> all_white_space token = true ->
        getAuthHeadersAndEndpoint store "bearerAuth" = empty_endpoint
        /\ headers (Earlier.getAuthHeadersAndEndpoint store "bearerAuth")
           = Some [("Authorization", ("Bearer " ++ token)%string)]).
Proof.
  split.
  - intros store authentication Hb Ho.
    unfold Earlier.getAuthHeadersAndEndpoint, getAuthHeadersAndEndpoint.
    destruct (String.eqb authentication "bearerAuth").
    + destruct (forestMcpApi store) as [e| |cred]; try reflexivity.
      destruct (Hb cred eq_refl) as [Hu Ht].
      assert (Eu : trimmed_or_empty (bearer_serverUrl cred)
                   = Earlier.or_empty (bearer_serverUrl cred))
        by (destruct (bearer_serverUrl cred); simpl in *; congruence).
      rewrite Eu.
      destruct (bearer_token cred) as [t|]; simpl in *; [|reflexivity].
      rewrite Ht. reflexivity.
    + destruct (forestMcpOAuth2Api store) as [e| |cred]; try reflexivity.
      destruct (Ho cred eq_refl) as [Hu Ht].
      assert (Eu : trimmed_or_empty (oauth_serverUrl cred)
                   = Earlier.or_empty (oauth_serverUrl cred))
        by (destruct (oauth_serverUrl cred); simpl in *; congruence).
      rewrite Eu. unfold stored_access_token in Ht.
      destruct (match oauthTokenData cred with
                | Some data => access_token data
                | None => None
                end) as [t|]; simpl in *; [|reflexivity].
      rewrite Ht. reflexivity.
  - intros store cred token Hrec Htok Hne Hws. split.
    + rewrite (bearer_record_resolution store cred Hrec), Htok. simpl.
      now rewrite (all_white_space_trim token Hws).
    + unfold Earlier.getAuthHeadersAndEndpoint. simpl. rewrite Hrec, Htok.
      destruct token; [now elim Hne|reflexivity].
Qed.

Lemma earlier_revision_agreement_witness :
  Earlier.getAuthHeadersAndEndpoint Scripted.bearer_store "bearerAuth"
  = getAuthHeadersAndEndpoint Scripted.bearer_store "bearerAuth"
  /\ getAuthHeadersAndEndpoint Scripted.blank_token_store "bearerAuth" = empty_endpoint
  /\ headers (Earlier.getAuthHeadersAndEndpoint Scripted.blank_token_store "bearerAuth")
     = Some [("Authorization", "Bearer   ")].
Proof.
  destruct earlier_revision_agreement as [Hsame Hblank].
  split.
  - apply Hsame.
    + intros cred H. injection H as <-. split; reflexivity.
    + intros cred H. discriminate H.
  - apply (Hblank Scripted.blank_token_store _ "  " eq_refl eq_refl).
    + discriminate.
    + reflexivity.
Defined.


(* ================================================================== *)
(** * URL handling and connection: further properties *)
(* ================================================================== *)

(** X7.  The string that is handed to the URL parser always starts with
    [http://] or [https://]; normalising twice is normalising once, so a
    normalised endpoint is parsed to the same result as the original. *)
Theorem withProtocol_idempotent : forall input,
  has_http_scheme (withProtocol input)
  /\ withProtocol (withProtocol input) = withProtocol input
  /\ (forall P : Platform,
         normalizeAndValidateUrl (P := P) (withProtocol input)
         = normalizeAndValidateUrl (P := P) input).
Proof.
  intros input.
  assert (H : has_http_scheme (withProtocol input)).
  { unfold withProtocol. destruct (Js.test_http_scheme input) eqn:E; simpl.
    - now apply test_http_scheme_iff.
    - exists "https://", input. split; [reflexivity|now right]. }
  assert (E : withProtocol (withProtocol input) = withProtocol input).
  { apply test_http_scheme_iff in H. unfold withProtocol at 1. now rewrite H. }
  split; [exact H|]. split; [exact E|].
  intros P. unfold normalizeAndValidateUrl. now rewrite E.
Qed.

(** X8.  Two connection errors are reported to the host with the same
    message exactly when they are of the same kind: each kind has a
    message of its own, which does not depend on the underlying error;
    and the error built for the host names no item. *)
Theorem connection_error_messages : forall e1 e2,
  (errorMessageOf (mapToNodeOperationError e1)
   = errorMessageOf (mapToNodeOperationError e2)
   <-> cerr_type e1 = cerr_type e2)
  /\ (exists message cause,
         mapToNodeOperationError e1 = NodeOperationError message cause None).
Proof.
  intros [k1 c1] [k2 c2]. unfold mapToNodeOperationError. simpl. split.
  - split.
    + destruct k1, k2; simpl; intros H; try reflexivity; discriminate H.
    + now intros ->.
  - destruct k1; do 2 eexists; reflexivity.
Qed.

Lemma connection_error_messages_witness :
  errorMessageOf (mapToNodeOperationError
                    {| cerr_type := auth; cerr_error := Scripted.route_missing |})
  <> errorMessageOf (mapToNodeOperationError
                       {| cerr_type := not_found; cerr_error := Scripted.route_missing |})
  /\ errorMessageOf (mapToNodeOperationError
                       {| cerr_type := auth; cerr_error := Scripted.route_missing |})
     = errorMessageOf (mapToNodeOperationError
                         {| cerr_type := auth;
                            cerr_error := ThrownOther "connection reset" |}).
Proof.
  split.
  - intros H.
    apply (proj1 (connection_error_messages
                    {| cerr_type := auth; cerr_error := Scripted.route_missing |}
                    {| cerr_type := not_found;
                       cerr_error := Scripted.route_missing |})) in H.
    discriminate H.
  - apply (proj1 (connection_error_messages
                    {| cerr_type := auth; cerr_error := Scripted.route_missing |}
                    {| cerr_type := auth;
                       cerr_error := ThrownOther "connection reset" |})).
    reflexivity.
Defined.

(** X9.  [connectMcpClient] never throws: it resolves to a result.  It
    makes at most one connection attempt, and none when the URL is
    refused (the world is then unchanged and the kind is [invalid_url]);
    on success the client carries the given name and the version as a
    string. *)
Theorem connect_single_attempt :
  forall (P : Platform) hdrs input name version (w : world P),
    exists r w',
      connectMcpClient hdrs input name version w = (Returned r, w')
      /\ match r with
         | ResultOk client =>
             client = {| client_name := name; client_version := Js.toString version |}
             /\ log w' = log w ++ [SessionOpened]
         | ResultError err =>
             (cerr_type err = invalid_url /\ w' = w)
             \/ (cerr_type err <> invalid_url
                 /\ log w' = log w ++ [ConnectRejected])
         end.
Proof.
  intros P hdrs input name version w.
  destruct (new_URL P (withProtocol input)) as [e|url] eqn:Hurl.
  - rewrite (connectMcpClient_invalid_url P hdrs input name version w e Hurl).
    eexists _, _. split; [reflexivity|]. left. split; reflexivity.
  - rewrite (connectMcpClient_parsed P hdrs input name version w url Hurl). simpl.
    destruct (sdk_connect P _ url hdrs (server w)) as [[e|] s];
      eexists _, _; (split; [reflexivity|]); simpl.
    + right. split; [|reflexivity]. apply classify_cases.
    + split; reflexivity.
Qed.


(* ================================================================== *)
(** * getAllTools: failures and unbounded pagination *)
(* ================================================================== *)

Lemma getAllTools_rejects : forall (P : Platform) s cursor pages e s',
  serves_then_rejects P s cursor pages e s' ->
  forall fuel client l,
    List.length pages < fuel ->
    exists calls,
      getAllTools fuel client cursor {| server := s; log := l |}
      = (Rejected (Uncaught e),
         {| server := s'; log := l ++ map ListToolsCalled calls |})
      /\ List.length calls = S (List.length pages).
Proof.
  intros P s cursor pages e s' H.
  induction H as [s cursor e s' Hcall
                 |s cursor page s1 rest e s' Hcall Hmore Hrest IH];
    intros fuel client l Hfuel; simpl in Hfuel.
  - destruct fuel as [|fuel]; [lia|]. simpl.
    unfold bind, listTools. simpl. rewrite Hcall. simpl.
    now exists [cursor].
  - destruct fuel as [|fuel]; [lia|]. simpl.
    unfold bind at 1. unfold listTools. simpl. rewrite Hcall, Hmore.
    unfold bind, record_event. simpl.
    destruct (IH fuel client (l ++ [ListToolsCalled cursor])) as [calls [Hrun Hlen]];
      [lia|].
    rewrite Hrun. exists (cursor :: calls). simpl.
    rewrite <- app_assoc. simpl. split; [reflexivity|now rewrite Hlen].
Qed.

(** X10.  When a call of [listTools] is rejected after some pages have
    been read, [getAllTools] is rejected with the same error: the tools of
    the pages read so far are not returned, and no call is made after the
    rejected one. *)
Theorem getAllTools_rejection_propagates :
  forall (P : Platform) (s s' : Server P) pages e fuel client l,
    serves_then_rejects P s None pages e s' ->
    List.length pages < fuel ->
    exists calls,
      getAllTools fuel client None {| server := s; log := l |}
      = (Rejected (Uncaught e),
         {| server := s'; log := l ++ map ListToolsCalled calls |})
      /\ List.length calls = S (List.length pages).
Proof.
  intros P s s' pages e fuel client l H Hfuel.
  now apply (getAllTools_rejects P s None pages e s' H).
Qed.

Lemma getAllTools_rejection_propagates_witness :
  fst (getAllTools 2 {| client_name := "forest"; client_version := "1" |} None
                   (Scripted.start Fixtures.broken_listing))
  = Rejected (Uncaught (ThrownError CodeAbsent "no page left")).
Proof.
  destruct (getAllTools_rejection_propagates Scripted.platform
              Fixtures.broken_listing Fixtures.broken_listing_read
              [Fixtures.first_page] (ThrownError CodeAbsent "no page left") 2
              {| client_name := "forest"; client_version := "1" |} [])
    as [calls [Hrun Hlen]].
  - eapply rejects_later; [reflexivity|reflexivity|].
    apply rejects_now. reflexivity.
  - simpl. lia.
  - unfold Scripted.start. now rewrite Hrun.
Defined.

(** X11.  [getAllTools] has no guard against a remote end that hands out
    a cursor with every page: it then never returns, and however many
    calls it is allowed it makes them all. *)
Theorem getAllTools_cursor_loop :
  forall (P : Platform), always_more P ->
  forall fuel client cursor (w : world P),
    exists calls w',
      getAllTools fuel client cursor w = (Pending, w')
      /\ log w' = log w ++ map ListToolsCalled calls
      /\ List.length calls = fuel.
Proof.
  intros P Hmore fuel client. induction fuel as [|fuel IH]; intros cursor w; simpl.
  - exists [], w. simpl. now rewrite app_nil_r.
  - destruct (Hmore cursor (server w)) as [page [s' [Hcall Htruthy]]].
    unfold bind at 1. unfold listTools. rewrite Hcall, Htruthy.
    destruct (IH (nextCursor page) (record_event (ListToolsCalled cursor) s' w))
      as [calls [w' [Hrun [Hlog Hlen]]]].
    unfold bind. rewrite Hrun.
    exists (cursor :: calls), w'. split; [reflexivity|]. split.
    + rewrite Hlog. simpl. now rewrite <- app_assoc.
    + simpl. now rewrite Hlen.
Qed.

Lemma getAllTools_cursor_loop_witness :
  fst (getAllTools 40 {| client_name := "forest"; client_version := "1" |} None
                   (Build_world Fixtures.looping 0 []))
  = Pending.
Proof.
  assert (Hmore : always_more Fixtures.looping).
  { intros cursor s. exists Scripted.P1, (S s). split; reflexivity. }
  destruct (getAllTools_cursor_loop Fixtures.looping Hmore 40
              {| client_name := "forest"; client_version := "1" |} None
              (Build_world Fixtures.looping 0 []))
    as [calls [w' [Hrun _]]].
  now rewrite Hrun.
Defined.

(** X12.  [getAllTools] uses the session for [listTools] calls only: it
    neither opens nor closes a session, whatever the remote end answers;
    closing is left to the caller. *)
Theorem getAllTools_only_lists :
  forall (P : Platform) fuel client cursor (w : world P),
    exists calls,
      log (snd (getAllTools fuel client cursor w))
      = log w ++ map ListToolsCalled calls
      /\ List.length calls <= fuel
      /\ existsb is_close (map ListToolsCalled calls) = false
      /\ existsb is_open (map ListToolsCalled calls) = false.
Proof.
  intros P fuel client.
  assert (Hnone : forall calls,
             existsb is_close (map ListToolsCalled calls) = false
             /\ existsb is_open (map ListToolsCalled calls) = false).
  { induction calls as [|c calls [H1 H2]]; simpl; auto. }
  induction fuel as [|fuel IH]; intros cursor w; simpl.
  - exists []. simpl. rewrite app_nil_r. auto.
  - unfold bind at 1. unfold listTools.
    destruct (sdk_listTools P cursor (server w)) as [[e|page] s]; simpl.
    + exists [cursor]. simpl. repeat split; auto. lia.
    + destruct (Js.truthy (nextCursor page)).
      * unfold bind.
        destruct (IH (nextCursor page) (record_event (ListToolsCalled cursor) s w))
          as [calls [Hcalls [Hlen _]]].
        exists (cursor :: calls).
        destruct (getAllTools fuel client (nextCursor page) _) as [[rest|e|] w'];
          simpl in Hcalls; simpl fst; simpl snd;
          (split; [rewrite Hcalls; simpl; now rewrite <- app_assoc|]);
          (split; [simpl; lia|apply Hnone]).
      * exists [cursor]. simpl. repeat split; auto. lia.
Qed.


(* ================================================================== *)
(** * getTools: session, outcome and filter *)
(* ================================================================== *)

(** X13.  [getTools] always ends and leaves no session open: the number
    of open sessions is the same after as before, on every path.  It
    calls [listTools] at most once, with the pagination token it was
    given; it never follows the cursor of the page. *)
Theorem getTools_releases_session :
  forall (P : Platform) this filter token (w : world P),
    exists evs,
      log (snd (getTools this filter token w)) = log w ++ evs
      /\ (forall opened, open_sessions evs opened = opened)
      /\ List.length (List.filter is_listTools evs) <= 1
      /\ (forall cursor, In (ListToolsCalled cursor) evs -> cursor = token)
      /\ fst (getTools this filter token w) <> Pending.
Proof.
  intros P this filter token w.
  destruct (getTools_closes_session P this filter token w)
    as [evs [Hlog [Hevs [_ Hend]]]].
  exists evs. split; [exact Hlog|].
  destruct Hevs as [-> | [-> | ->]]; simpl;
    (split; [reflexivity|split; [lia|split; [|exact Hend]]]);
    intros cursor H; try contradiction.
  - destruct H as [H|H]; [discriminate|contradiction].
  - destruct H as [H|[H|[H|H]]]; try discriminate; try contradiction.
    now injection H.
Qed.

Lemma getTools_connected :
  forall (P : Platform) this filter token (w w1 : world P) url session,
    endpointUrl (discovery_endpoint this) = Some url ->
    url <> "" ->
    connectMcpClient (headers (discovery_endpoint this)) url
      (node_type (lo_node this)) (node_typeVersion (lo_node this)) w
    = (Returned (ResultOk session), w1) ->
    getTools this filter token w
    = try_finally
        (result <- listTools session token ;;
         let found :=
           match filter with
           | Some ((String _ _) as f) =>
               List.filter
                 (fun tool => Js.includes (Js.toLowerCase (tool_name tool))
                                          (Js.toLowerCase f))
                 (tools result)
           | _ => tools result
           end in
         ret {| results := map search_item found;
                paginationToken := nextCursor result |})
        (close session) w1.
Proof.
  intros P this filter token w w1 url session Hurl Hne Hc.
  unfold discovery_endpoint in *. unfold getTools. rewrite Hurl.
  destruct url as [|c url]; [now elim Hne|]. simpl.
  unfold bind at 1. rewrite Hc. reflexivity.
Qed.

(** X14.  Once connected, the outcome of [getTools] is decided by the
    listing and by the closing of the session: a rejection of [close] is
    what the caller sees, whatever the listing did; otherwise a rejection
    of [listTools] reaches the caller as it is; otherwise the result has
    the cursor of the page as its pagination token and, without a filter,
    one item for each tool of the page, in order. *)
Theorem getTools_outcome :
  forall (P : Platform) this filter token (w w1 : world P) url session
         listed s1 closed s2,
    endpointUrl (discovery_endpoint this) = Some url ->
    url <> "" ->
    connectMcpClient (headers (discovery_endpoint this)) url
      (node_type (lo_node this)) (node_typeVersion (lo_node this)) w
    = (Returned (ResultOk session), w1) ->
    sdk_listTools P token (server w1) = (listed, s1) ->
    sdk_close P s1 = (closed, s2) ->
    match closed, listed with
    | Some e', _ => fst (getTools this filter token w) = Rejected (Uncaught e')
    | None, inl e => fst (getTools this filter token w) = Rejected (Uncaught e)
    | None, inr page =>
        exists r,
          fst (getTools this filter token w) = Returned r
          /\ paginationToken r = nextCursor page
          /\ (Js.truthy filter = false -> results r = map search_item (tools page))
    end.
Proof.
  intros P this filter token w w1 url session listed s1 closed s2
         Hurl Hne Hc Hlist Hclose.
  rewrite (getTools_connected P this filter token w w1 url session Hurl Hne Hc).
  unfold try_finally, bind, listTools, close, ret. rewrite Hlist. simpl.
  destruct listed as [e|page]; simpl; rewrite Hclose; destruct closed as [e'|];
    simpl; try reflexivity.
  eexists. split; [reflexivity|]. split; [reflexivity|]. simpl.
  destruct filter as [[|c f]|]; simpl; intros H; try reflexivity. discriminate.
Qed.

Lemma getTools_outcome_witness :
  exists r,
    fst (getTools Scripted.discovery None None (Scripted.start Scripted.healthy))
    = Returned r
    /\ paginationToken r = Some "c1"
    /\ (Js.truthy None = false ->
        results r = map search_item (tools Scripted.P1)).
Proof.
  exact (getTools_outcome Scripted.platform Scripted.discovery None None
           (Scripted.start Scripted.healthy)
           (Build_world Scripted.platform Scripted.healthy [SessionOpened])
           "https://x.test/mcp" {| client_name := "forest"; client_version := "1" |}
           (inr Scripted.P1) _ None _
           eq_refl ltac:(discriminate) eq_refl eq_refl eq_refl).
Defined.

(** X15.  With a filter, every item that [getTools] returns has its name
    as its value, and its name contains the filter, letter case aside;
    two filters that differ in letter case only give the same result; and
    the empty filter is no filter. *)
Theorem getTools_filter :
  (forall (P : Platform) this f token (w w' : world P) r,
      f <> "" ->
      getTools this (Some f) token w = (Returned r, w') ->
      Forall (fun item =>
                item_value item = item_name item
                /\ Js.includes (Js.toLowerCase (item_name item))
                               (Js.toLowerCase f) = true)
             (results r))
  /\ (forall (P : Platform) this f f' token (w : world P),
        Js.toLowerCase f = Js.toLowerCase f' ->
        getTools this (Some f) token w = getTools this (Some f') token w)
  /\ (forall (P : Platform) this token (w : world P),
        getTools this (Some "") token w = getTools this None token w).
Proof.
  split; [|split].
  - intros P this f token w w' r Hne Hrun. unfold getTools in Hrun.
    destruct (Js.truthy _); simpl in Hrun.
    2:{ injection Hrun as <- _. constructor. }
    unfold bind at 1 in Hrun.
    destruct (connectMcpClient _ _ _ _ w) as [[[session|err]|e|] w1];
      try discriminate Hrun.
    unfold try_finally, bind, listTools, close, ret in Hrun.
    destruct (sdk_listTools P token (server w1)) as [[e|page] s1]; simpl in Hrun;
      destruct (sdk_close P s1) as [[e'|] s2]; simpl in Hrun;
      try discriminate Hrun.
    injection Hrun as <- _. simpl.
    destruct f as [|c f]; [now elim Hne|].
    apply Forall_forall. intros item Hin. apply in_map_iff in Hin as [tool [<- Hin]].
    apply filter_In in Hin as [_ Hin]. simpl. split; [reflexivity|exact Hin].
  - intros P this f f' token w Heq. unfold getTools.
    destruct f as [|c f], f' as [|c' f']; try reflexivity; try discriminate Heq.
    now rewrite Heq.
  - reflexivity.
Qed.

Lemma getTools_filter_witness :
  Forall (fun item =>
            item_value item = item_name item
            /\ Js.includes (Js.toLowerCase (item_name item)) (Js.toLowerCase "CRE") = true)
         [{| item_name := "create"; item_value := "create"; item_description := None |}]
  /\ getTools Scripted.discovery (Some "CRE") None (Scripted.start Scripted.healthy)
     = getTools Scripted.discovery (Some "cre") None (Scripted.start Scripted.healthy).
Proof.
  destruct getTools_filter as [Hin [Hcase _]]. split.
  - apply (Hin Scripted.platform Scripted.discovery "CRE" None
               (Scripted.start Scripted.healthy) _ _ ltac:(discriminate) eq_refl).
  - apply (Hcase Scripted.platform). reflexivity.
Defined.


(* ================================================================== *)
(** * Schema mapper: structure of the result *)
(* ================================================================== *)

Lemma array_includes_In : forall l key,
  array_includes l key = true <-> In key l.
Proof.
  intros l key. unfold array_includes. rewrite existsb_exists. split.
  - intros [x [Hin Heq]]. apply String.eqb_eq in Heq. now subst.
  - intros H. exists key. split; [exact H|apply String.eqb_refl].
Qed.

Lemma convertProperty_id_required :
  forall (P : Platform) requiredFields key ps,
    let field := convertProperty (P := P) requiredFields key ps in
    field_id field = key
    /\ field_required field = array_includes requiredFields key
    /\ field_defaultMatch field = false
    /\ field_canBeUsedToMatch field = false
    /\ field_display field = true.
Proof.
  intros P requiredFields key ps. unfold convertProperty.
  destruct (prop_enum ps) as [[|v vs]|]; simpl; repeat split.
Qed.

(** X16.  For an object schema the mapper returns one field for each
    property that is a schema object, in the order of the properties, with
    the name of the property as its id; boolean schemas are skipped.  A
    field is required exactly when its id is among the required names, and
    every field is displayed and is not used for matching. *)
Theorem mapper_fields_follow_properties :
  forall (P : Platform) schema requiredFields properties,
    schema_type schema = Some (TypeName "object") ->
    schema_properties schema = Some properties ->
    let result := convertJsonSchemaToResourceMapperFields (P := P) schema requiredFields in
    map field_id result = map fst (List.filter is_object_schema properties)
    /\ Forall (fun field =>
                 (field_required field = true <-> In (field_id field) requiredFields)
                 /\ field_defaultMatch field = false
                 /\ field_canBeUsedToMatch field = false
                 /\ field_display field = true)
              result.
Proof.
  intros P schema requiredFields properties Htype Hprops result. subst result.
  unfold convertJsonSchemaToResourceMapperFields. rewrite Htype, Hprops. simpl.
  rewrite convertProperties_acc. simpl. clear Hprops. split.
  - induction properties as [|[key [b|ps]] rest IH]; simpl; [reflexivity|exact IH|].
    unfold is_object_schema at 1. simpl. rewrite IH.
    now destruct (convertProperty_id_required P requiredFields key ps) as [-> _].
  - apply Forall_forall. intros field Hin. apply in_flat_map in Hin as [[key def] [_ Hin]].
    simpl in Hin. destruct def as [b|ps]; [contradiction|].
    destruct Hin as [<-|[]].
    destruct (convertProperty_id_required P requiredFields key ps)
      as [Hid [Hreq [Hm [Hc Hd]]]].
    rewrite Hid, Hreq. repeat split; auto; apply array_includes_In.
Qed.

Lemma mapper_fields_follow_properties_witness :
  map field_id
      (convertJsonSchemaToResourceMapperFields (P := Scripted.platform)
         Fixtures.update_schema ["id"])
  = ["id"; "status"; "patch"].
Proof.
  exact (proj1 (mapper_fields_follow_properties Scripted.platform
                  Fixtures.update_schema ["id"] _ eq_refl eq_refl)).
Defined.

(** X17.  The mapper returns no field when the type of the schema is not
    the single name [object] (an array of type names included), when the
    schema has no [properties], and when [properties] is empty. *)
Theorem mapper_needs_object_schema :
  forall (P : Platform) schema requiredFields,
    schema_type schema <> Some (TypeName "object")
    \/ schema_properties schema = None
    \/ schema_properties schema = Some [] ->
    convertJsonSchemaToResourceMapperFields (P := P) schema requiredFields = [].
Proof.
  intros P schema requiredFields H.
  unfold convertJsonSchemaToResourceMapperFields.
  destruct (schema_type schema) as [[t|ts]|] eqn:Et; try reflexivity.
  destruct (schema_properties schema) as [properties|] eqn:Ep; try reflexivity.
  destruct (String.eqb t "object") eqn:E; [|reflexivity].
  apply String.eqb_eq in E. subst t.
  destruct H as [H|[H|H]]; [now elim H|discriminate|].
  injection H as ->. reflexivity.
Qed.

Lemma mapper_needs_object_schema_witness :
  convertJsonSchemaToResourceMapperFields (P := Scripted.platform)
    {| schema_type := Some (TypeNames ["object"]);
       schema_properties := schema_properties Fixtures.update_schema;
       schema_required := None |} []
  = [].
Proof.
  apply mapper_needs_object_schema. left. discriminate.
Defined.

Lemma jsonSchemaTypeToFieldType_cases : forall type,
  let t := primaryType type in
  (jsonSchemaTypeToFieldType type = ft_object <-> t = Some "object")
  /\ (jsonSchemaTypeToFieldType type = ft_array <-> t = Some "array")
  /\ (jsonSchemaTypeToFieldType type = ft_boolean <-> t = Some "boolean")
  /\ (jsonSchemaTypeToFieldType type = ft_number
      <-> t = Some "number" \/ t = Some "integer")
  /\ jsonSchemaTypeToFieldType type <> ft_options.
Proof.
  intros type t. subst t. unfold jsonSchemaTypeToFieldType.
  destruct (primaryType type) as [t|].
  2:{ repeat split; try discriminate. intros [H|H]; discriminate. }
  destruct (String.eqb t "string") eqn:E1;
    [apply String.eqb_eq in E1; subst t; repeat split; try discriminate;
     intros [H|H]; discriminate|].
  destruct (String.eqb t "number") eqn:E2;
    [apply String.eqb_eq in E2; subst t; repeat split; try discriminate; auto|].
  destruct (String.eqb t "integer") eqn:E3;
    [apply String.eqb_eq in E3; subst t; repeat split; try discriminate; auto|].
  destruct (String.eqb t "boolean") eqn:E4;
    [apply String.eqb_eq in E4; subst t; repeat split; try discriminate; auto;
     intros [H|H]; discriminate|].
  destruct (String.eqb t "array") eqn:E5;
    [apply String.eqb_eq in E5; subst t; repeat split; try discriminate; auto;
     intros [H|H]; discriminate|].
  destruct (String.eqb t "object") eqn:E6;
    [apply String.eqb_eq in E6; subst t; repeat split; try discriminate; auto;
     intros [H|H]; discriminate|].
  apply String.eqb_neq in E2, E3, E4, E5, E6.
  repeat split; try discriminate; try (intros H; injection H; congruence).
  intros [H|H]; injection H; congruence.
Qed.

(** X18.  A field has the type [options] exactly when its property
    declares a non-empty enum, and it has an options list exactly then;
    otherwise its type is the one mapped from the declared type. *)
Theorem options_iff_enum :
  forall (P : Platform) requiredFields key ps,
    let field := convertProperty (P := P) requiredFields key ps in
    (field_type field = ft_options <-> exists v vs, prop_enum ps = Some (v :: vs))
    /\ (field_options field <> None <-> exists v vs, prop_enum ps = Some (v :: vs))
    /\ (field_type field = ft_options
        \/ field_type field = jsonSchemaTypeToFieldType (type_or_string (prop_type ps))).
Proof.
  intros P requiredFields key ps field. subst field. unfold convertProperty.
  destruct (jsonSchemaTypeToFieldType_cases (type_or_string (prop_type ps)))
    as [_ [_ [_ [_ Hno]]]].
  destruct (prop_enum ps) as [[|v vs]|]; simpl.
  - split; [|split; [|now right]]; split; try contradiction;
      intros [v [vs H]]; discriminate.
  - split; [|split; [|now left]]; split; try discriminate; eauto.
  - split; [|split; [|now right]]; split; try contradiction;
      intros [v [vs H]]; discriminate.
Qed.

(** X19.  The default value of a field is the text of an empty object
    exactly when the declared type (the first one of an array of types) is
    [object], of an empty array exactly when it is [array], and is absent
    otherwise, whether or not an enum overrides the type.  The display
    name is the key when the description is absent or empty, and
    [<key> - <description>] otherwise. *)
Theorem field_label_and_default :
  forall (P : Platform) requiredFields key ps,
    let field := convertProperty (P := P) requiredFields key ps in
    let declared := primaryType (type_or_string (prop_type ps)) in
    (field_defaultValue field = Some "{}" <-> declared = Some "object")
    /\ (field_defaultValue field = Some "[]" <-> declared = Some "array")
    /\ (field_defaultValue field = None
        <-> declared <> Some "object" /\ declared <> Some "array")
    /\ (Js.truthy (prop_description ps) = false -> field_displayName field = key)
    /\ (forall d, prop_description ps = Some d -> d <> "" ->
                  field_displayName field = (key ++ " - " ++ d)%string).
Proof.
  intros P requiredFields key ps field declared. subst field declared.
  destruct (jsonSchemaTypeToFieldType_cases (type_or_string (prop_type ps)))
    as [Hobj [Harr _]].
  assert (Hdefault :
            field_defaultValue (convertProperty (P := P) requiredFields key ps)
            = match jsonSchemaTypeToFieldType (type_or_string (prop_type ps)) with
              | ft_object => Some "{}"
              | ft_array => Some "[]"
              | _ => None
              end).
  { unfold convertProperty. now destruct (prop_enum ps) as [[|v vs]|]. }
  assert (Hname :
            field_displayName (convertProperty (P := P) requiredFields key ps)
            = match prop_description ps with
              | Some ((String _ _) as d) => (key ++ " - " ++ d)%string
              | _ => key
              end).
  { unfold convertProperty. now destruct (prop_enum ps) as [[|v vs]|]. }
  rewrite Hdefault, Hname.
  split; [|split; [|split; [|split]]].
  - rewrite <- Hobj.
    destruct (jsonSchemaTypeToFieldType _); split; congruence.
  - rewrite <- Harr.
    destruct (jsonSchemaTypeToFieldType _); split; congruence.
  - rewrite <- Hobj, <- Harr.
    destruct (jsonSchemaTypeToFieldType _); split;
      try discriminate; try (intros [H1 H2]; congruence); split; discriminate.
  - destruct (prop_description ps) as [[|c d]|]; simpl; try reflexivity; discriminate.
  - intros d -> Hne. destruct d; [now elim Hne|reflexivity].
Qed.

Lemma field_label_and_default_witness :
  field_displayName
    (convertProperty (P := Scripted.platform) [] "id"
       {| prop_type := Some (TypeName "integer");
          prop_description := Some "record id";
          prop_enum := None |})
  = "id - record id"
  /\ field_displayName
       (convertProperty (P := Scripted.platform) [] "patch"
          {| prop_type := Some (TypeNames ["object"; "null"]);
             prop_description := Some "";
             prop_enum := None |})
     = "patch".
Proof.
  split.
  - apply (field_label_and_default Scripted.platform [] "id"
             {| prop_type := Some (TypeName "integer");
                prop_description := Some "record id";
                prop_enum := None |}) with (d := "record id");
      [reflexivity|discriminate].
  - apply (field_label_and_default Scripted.platform [] "patch"
             {| prop_type := Some (TypeNames ["object"; "null"]);
                prop_description := Some "";
                prop_enum := None |}).
    reflexivity.
Defined.


(* ================================================================== *)
(** * getToolParameters: composition *)
(* ================================================================== *)

Lemma getToolParameters_connected :
  forall (P : Platform) fuel this (w w1 : world P) toolId url session,
    lo_tool_value this = Some toolId -> toolId <> "" ->
    endpointUrl (discovery_endpoint this) = Some url -> url <> "" ->
    connectMcpClient (headers (discovery_endpoint this)) url
      (node_type (lo_node this)) (node_typeVersion (lo_node this)) w
    = (Returned (ResultOk session), w1) ->
    getToolParameters fuel this w
    = try_finally
        (all <- getAllTools fuel session None ;;
         match List.find (fun t => String.eqb (tool_name t) toolId) all with
         | None => ret {| fields := [] |}
         | Some tool =>
             ret {| fields :=
                      convertJsonSchemaToResourceMapperFields (P := P)
                        (inputSchema tool)
                        (match schema_required (inputSchema tool) with
                         | Some r => r
                         | None => []
                         end) |}
         end)
        (close session) w1.
Proof.
  intros P fuel this w w1 toolId url session Htool Hid Hurl Hne Hc.
  unfold discovery_endpoint in *. unfold getToolParameters.
  rewrite Htool, Hurl.
  destruct toolId as [|c toolId]; [now elim Hid|].
  destruct url as [|c' url]; [now elim Hne|]. simpl.
  unfold bind at 1. rewrite Hc. reflexivity.
Qed.

(** X20.  When a tool is selected, the endpoint is resolved, the
    connection succeeds and the remote end serves a finite chain of pages,
    [getToolParameters] returns the fields mapped from the input schema of
    the first tool of the catalog that has the selected name, with the
    [required] names of that schema, and no field when no tool has the
    name.  The session is asked for each page once and is then closed. *)
Theorem getToolParameters_reads_schema :
  forall (P : Platform) fuel this (w w1 : world P) toolId url session pages s' s'',
    lo_tool_value this = Some toolId -> toolId <> "" ->
    endpointUrl (discovery_endpoint this) = Some url -> url <> "" ->
    connectMcpClient (headers (discovery_endpoint this)) url
      (node_type (lo_node this)) (node_typeVersion (lo_node this)) w
    = (Returned (ResultOk session), w1) ->
    serves P (server w1) None pages s' ->
    List.length pages <= fuel ->
    sdk_close P s' = (None, s'') ->
    getToolParameters fuel this w
    = (Returned
         {| fields :=
              match List.find (fun t => String.eqb (tool_name t) toolId)
                              (List.concat (map tools pages)) with
              | None => []
              | Some tool =>
                  convertJsonSchemaToResourceMapperFields (P := P)
                    (inputSchema tool)
                    (match schema_required (inputSchema tool) with
                     | Some r => r
                     | None => []
                     end)
              end |},
       {| server := s'';
          log := log w1 ++ map ListToolsCalled (cursors_asked None pages)
                       ++ [CloseCalled] |}).
Proof.
  intros P fuel this w w1 toolId url session pages s' s''
         Htool Hid Hurl Hne Hc Hserves Hfuel Hclose.
  rewrite (getToolParameters_connected P fuel this w w1 toolId url session
             Htool Hid Hurl Hne Hc).
  unfold try_finally, bind.
  destruct w1 as [s1 l1]. simpl in Hserves.
  rewrite (getAllTools_serves P s1 None pages s' Hserves fuel session l1 Hfuel).
  rewrite <- flat_map_concat_map.
  destruct (find _ (flat_map tools pages)); unfold ret, close; simpl;
    rewrite Hclose; simpl; unfold record_event; simpl;
    now rewrite <- app_assoc.
Qed.

Lemma getToolParameters_reads_schema_witness :
  getToolParameters 2 Scripted.discovery (Scripted.start Fixtures.catalog)
  = (Returned
       {| fields :=
            convertJsonSchemaToResourceMapperFields (P := Scripted.platform)
              Fixtures.update_schema ["id"] |},
     Build_world Scripted.platform Fixtures.catalog_read
       [SessionOpened; ListToolsCalled None; ListToolsCalled (Some "n"); CloseCalled]).
Proof.
  apply (getToolParameters_reads_schema Scripted.platform 2 Scripted.discovery
           (Scripted.start Fixtures.catalog)
           (Build_world Scripted.platform Fixtures.catalog [SessionOpened])
           "update" "https://x.test/mcp"
           {| client_name := "forest"; client_version := "1" |}
           [Fixtures.first_page; Fixtures.last_page]
           Fixtures.catalog_read Fixtures.catalog_read).
  - reflexivity.
  - discriminate.
  - reflexivity.
  - discriminate.
  - reflexivity.
  - eapply serves_next; [reflexivity|reflexivity|].
    eapply serves_last; reflexivity.
  - simpl. lia.
  - reflexivity.
Defined.

(** X21.  Whenever [getToolParameters] ends, the number of open sessions
    is the same after as before.  When no tool is selected it returns no
    field and leaves the remote end and the session log as they were,
    whatever the credential store holds: no connection is attempted. *)
Theorem getToolParameters_releases_session :
  (forall (P : Platform) fuel this (w : world P),
      fst (getToolParameters fuel this w) <> Pending ->
      exists evs,
        log (snd (getToolParameters fuel this w)) = log w ++ evs
        /\ (forall opened, open_sessions evs opened = opened))
  /\ (forall (P : Platform) fuel this (w : world P),
        Js.truthy (lo_tool_value this) = false ->
        getToolParameters fuel this w = (Returned {| fields := [] |}, w)).
Proof.
  split.
  - intros P fuel this w Hend.
    destruct (getToolParameters_closes_session P fuel this w Hend)
      as [evs [Hlog [Hevs _]]].
    exists evs. split; [exact Hlog|].
    destruct Hevs as [-> | [-> | [calls ->]]]; intros opened; simpl;
      try reflexivity.
    now rewrite open_sessions_listTools.
  - intros P fuel this w H. unfold getToolParameters. now rewrite H.
Qed.

Lemma getToolParameters_releases_session_witness :
  (exists evs,
      log (snd (getToolParameters 2 Scripted.discovery
                  (Scripted.start Fixtures.catalog)))
      = log (Scripted.start Fixtures.catalog) ++ evs
      /\ (forall opened, open_sessions evs opened = opened))
  /\ getToolParameters 2
       {| lo_authentication := "bearerAuth";
          lo_tool_value := Some "";
          lo_node := Scripted.node;
          lo_credentials := Scripted.bearer_store |}
       (Scripted.start Fixtures.catalog)
     = (Returned {| fields := [] |}, Scripted.start Fixtures.catalog).
Proof.
  destruct getToolParameters_releases_session as [Hclosed Hnone]. split.
  - apply (Hclosed Scripted.platform). discriminate.
  - apply (Hnone Scripted.platform). reflexivity.
Defined.




(* ================================================================== *)
(** * execute: content, items and failures *)
(* ================================================================== *)

Lemma map_inr_nil : forall (A B : Type) (l : list B),
  [] = map (@inr A B) l -> l = [].
Proof. intros A B [|x l] H; [reflexivity|discriminate]. Qed.

Lemma map_inr_cons : forall (A B : Type) (r : A + B) (rs : list (A + B)) (l : list B),
  r :: rs = map inr l ->
  exists x l', l = x :: l' /\ r = inr x /\ rs = map inr l'.
Proof.
  intros A B r rs [|x l] H; [discriminate|].
  injection H as -> ->. now exists x, l.
Qed.

(** [splitContent] from any state of its three variables, when every
    attachment can be prepared. *)
Lemma splitContent_prepared :
  forall (P : Platform) convertToBinary items binaryIndex binary content (w : world P)
         prepared,
    map (fun a => prepareBinaryData P (fst a) (snd a))
        (attachments convertToBinary items)
    = map inr prepared ->
    splitContent convertToBinary items binaryIndex binary content w
    = (Returned
         (binary ++ combine (map binary_key (seq binaryIndex (List.length prepared)))
                            prepared,
          content ++ content_blocks P convertToBinary items),
       w).
Proof.
  intros P convertToBinary items.
  induction items as [|item items IH];
    intros binaryIndex binary content w prepared H.
  - simpl in H. apply map_inr_nil in H. subst prepared.
    simpl. now rewrite !app_nil_r.
  - assert (Hcontent : forall out,
               attachments convertToBinary (item :: items)
               = attachments convertToBinary items ->
               content_blocks P convertToBinary (item :: items)
               = out :: content_blocks P convertToBinary items ->
               splitContent convertToBinary items binaryIndex binary
                            (content ++ [out]) w
               = (Returned
                    (binary ++ combine (map binary_key
                                          (seq binaryIndex (List.length prepared)))
                                       prepared,
                     content ++ content_blocks P convertToBinary (item :: items)),
                  w)).
    { intros out Ha Hc. rewrite Ha in H. rewrite (IH _ _ _ _ _ H), Hc.
      now rewrite <- app_assoc. }
    assert (Hmedia : forall data mimeType,
               attachments convertToBinary (item :: items)
               = (if convertToBinary then [(data, mimeType)] else [])
                   ++ attachments convertToBinary items ->
               content_blocks P convertToBinary (item :: items)
               = (if convertToBinary then [] else [PassedThrough item])
                   ++ content_blocks P convertToBinary items ->
               (if convertToBinary
                then match prepareBinaryData P data mimeType with
                     | inl e => throw (Uncaught e)
                     | inr prepared0 =>
                         splitContent convertToBinary items (S binaryIndex)
                           (binary ++ [(("data_" ++ Js.toString (Z.of_nat binaryIndex))%string,
                                        prepared0)])
                           content
                     end
                else splitContent convertToBinary items binaryIndex binary
                       (content ++ [PassedThrough item])) w
               = (Returned
                    (binary ++ combine (map binary_key
                                          (seq binaryIndex (List.length prepared)))
                                       prepared,
                     content ++ content_blocks P convertToBinary (item :: items)),
                  w)).
    { intros data mimeType Ha Hc. destruct convertToBinary.
      - rewrite Ha in H. simpl in H.
        apply map_inr_cons in H as [p [prepared' [-> [Hp H]]]].
        rewrite Hp, (IH _ _ _ _ _ H), Hc. simpl. now rewrite <- app_assoc.
      - now apply Hcontent. }
    destruct item as [text|data mimeType|data mimeType|other]; simpl splitContent.
    + now apply Hcontent.
    + now apply Hmedia.
    + now apply Hmedia.
    + now apply Hcontent.
Qed.

(** [splitContent] when an attachment cannot be prepared. *)
Lemma splitContent_refused :
  forall (P : Platform) convertToBinary items binaryIndex binary content (w : world P)
         before a after prepared e,
    attachments convertToBinary items = before ++ a :: after ->
    map (fun a => prepareBinaryData P (fst a) (snd a)) before = map inr prepared ->
    prepareBinaryData P (fst a) (snd a) = inl e ->
    splitContent convertToBinary items binaryIndex binary content w
    = (Rejected (Uncaught e), w).
Proof.
  intros P convertToBinary items.
  induction items as [|item items IH];
    intros binaryIndex binary content w before a after prepared e Ha Hb He.
  - destruct before; discriminate Ha.
  - assert (Hmedia : forall data mimeType,
               attachments convertToBinary (item :: items)
               = (if convertToBinary then [(data, mimeType)] else [])
                   ++ attachments convertToBinary items ->
               (if convertToBinary
                then match prepareBinaryData P data mimeType with
                     | inl e => throw (Uncaught e)
                     | inr prepared0 =>
                         splitContent convertToBinary items (S binaryIndex)
                           (binary ++ [(("data_" ++ Js.toString (Z.of_nat binaryIndex))%string,
                                        prepared0)])
                           content
                     end
                else splitContent convertToBinary items binaryIndex binary
                       (content ++ [PassedThrough item])) w
               = (Rejected (Uncaught e), w)).
    { intros data mimeType Hatt. rewrite Hatt in Ha. destruct convertToBinary.
      - simpl in Ha. destruct before as [|b before].
        + simpl in Ha. injection Ha as <- _. simpl in He. now rewrite He.
        + simpl in Ha. injection Ha as <- Ha. simpl in Hb.
          apply map_inr_cons in Hb as [p [prepared' [-> [Hp Hb]]]].
          simpl in Hp. rewrite Hp. now apply (IH _ _ _ _ before a after prepared' e).
      - simpl in Ha. now apply (IH _ _ _ _ before a after prepared e). }
    destruct item as [text|data mimeType|data mimeType|other]; simpl splitContent.
    + now apply (IH _ _ _ _ before a after prepared e).
    + now apply Hmedia.
    + now apply Hmedia.
    + now apply (IH _ _ _ _ before a after prepared e).
Qed.

(** X26.  Splitting the content of a tool result leaves the session as it
    is.  The images and the sounds become the binary attachments, when
    [convertToBinary] is on: each one is prepared from its data and MIME
    type, in the order of the blocks, under the keys [data_0], [data_1],
    ...; every other block goes to the content list, in the order of the
    blocks, a text block with its text parsed as JSON when it can be and
    any other block as it is.  When an attachment cannot be prepared, the
    first refusal is thrown. *)
Theorem splitContent_partition :
  forall (P : Platform) convertToBinary items (w : world P),
    snd (splitContent convertToBinary items 0 [] [] w) = w
    /\ (forall prepared,
           map (fun a => prepareBinaryData P (fst a) (snd a))
               (attachments convertToBinary items)
           = map inr prepared ->
           fst (splitContent convertToBinary items 0 [] [] w)
           = Returned (combine (map binary_key (seq 0 (List.length prepared)))
                               prepared,
                       content_blocks P convertToBinary items))
    /\ (forall before a after prepared e,
           attachments convertToBinary items = before ++ a :: after ->
           map (fun a => prepareBinaryData P (fst a) (snd a)) before
           = map inr prepared ->
           prepareBinaryData P (fst a) (snd a) = inl e ->
           fst (splitContent convertToBinary items 0 [] [] w)
           = Rejected (Uncaught e)).
Proof.
  intros P convertToBinary items w. split; [apply splitContent_world|]. split.
  - intros prepared H.
    now rewrite (splitContent_prepared P convertToBinary items 0 [] [] w prepared H).
  - intros before a after prepared e Ha Hb He.
    now rewrite (splitContent_refused P convertToBinary items 0 [] [] w
                   before a after prepared e Ha Hb He).
Qed.

Lemma splitContent_partition_witness :
  fst (splitContent (P := Scripted.platform) true Fixtures.mixed_content 0 [] []
         (Scripted.start Fixtures.mixed_tool))
  = Returned ([("data_0", ("AAAA", "image/png")); ("data_1", ("BBBB", "audio/wav"))],
              [ParsedText (VNumber 42);
               PassedThrough
                 (OtherContent (VObject [("type", VString "resource_link")]))])
  /\ fst (splitContent (P := Scripted.platform) false Fixtures.mixed_content 0 [] []
            (Scripted.start Fixtures.mixed_tool))
     = Returned ([],
                 [ParsedText (VNumber 42);
                  PassedThrough (ImageContent "AAAA" "image/png");
                  PassedThrough
                    (OtherContent (VObject [("type", VString "resource_link")]));
                  PassedThrough (AudioContent "BBBB" "audio/wav")]).
Proof.
  split.
  - exact (proj1 (proj2 (splitContent_partition Scripted.platform true
                           Fixtures.mixed_content
                           (Scripted.start Fixtures.mixed_tool)))
             [("AAAA", "image/png"); ("BBBB", "audio/wav")] eq_refl).
  - exact (proj1 (proj2 (splitContent_partition Scripted.platform false
                           Fixtures.mixed_content
                           (Scripted.start Fixtures.mixed_tool)))
             [] eq_refl).
Defined.

Lemma splitContent_ends :
  forall (P : Platform) convertToBinary items binaryIndex binary content (w : world P),
    fst (splitContent convertToBinary items binaryIndex binary content w) <> Pending.
Proof.
  intros P convertToBinary items.
  induction items as [|item items IH]; intros binaryIndex binary content w; simpl.
  - discriminate.
  - destruct item as [text|data mimeType|data mimeType|other]; try apply IH.
    + destruct convertToBinary; [|apply IH].
      destruct (prepareBinaryData P data mimeType); [discriminate|apply IH].
    + destruct convertToBinary; [|apply IH].
      destruct (prepareBinaryData P data mimeType); [discriminate|apply IH].
Qed.

Lemma world_eta : forall (P : Platform) (w : world P),
  {| server := server w; log := log w ++ [] |} = w.
Proof. intros P [s l]. simpl. now rewrite app_nil_r. Qed.

(** One item.  When a lookup throws, that value is thrown and the world
    is left as it is; otherwise the tool is called once, and the item
    that is returned is tagged with the index. *)
Lemma runItem_outcome :
  forall (P : Platform) this client itemIndex (w : world P),
    exists r s,
      runItem this client (ex_inputMode this) itemIndex w
      = (r, {| server := s; log := log w ++ item_calls this itemIndex |})
      /\ match r with
         | Returned item =>
             pairedItem item = itemIndex /\ is_json_error item = false
             /\ exists read, item_lookups this itemIndex = inr read
         | Rejected e =>
             forall e0, item_lookups this itemIndex = inl e0 -> e = Uncaught e0
         | Pending => False
         end.
Proof.
  intros P this client itemIndex w.
  unfold runItem, item_calls, item_lookups, bind at 1, getNodeParameter at 1.
  destruct (ex_tool this itemIndex) as [e|tool].
  { exists (Rejected (Uncaught e)), (server w). unfold throw. rewrite world_eta.
    split; [reflexivity|]. now intros e0 [= <-]. }
  unfold ret at 1, bind at 1, getNodeParameter at 1.
  destruct (ex_options this itemIndex) as [e|options].
  { exists (Rejected (Uncaught e)), (server w). unfold throw. rewrite world_eta.
    split; [reflexivity|]. now intros e0 [= <-]. }
  unfold ret at 1, bind at 1.
  assert (Hfound : forall found : thrown + value,
             exists r s,
               (let (r0, w1) := getNodeParameter found w in
                match r0 with
                | Returned parameters =>
                    (result <- callTool client tool parameters
                                 (match opt_timeout options with
                                  | Some 0%Z => None
                                  | t => t
                                  end) ;;
                     let convertToBinary :=
                       match opt_convertToBinary options with
                       | Some b => b
                       | None => true
                       end in
                     split <- splitContent convertToBinary (content result) 0 [] [] ;;
                     ret {| json := JsonContent (match snd split with
                                                 | [] => None
                                                 | c => Some c
                                                 end);
                            binary := match fst split with
                                      | [] => None
                                      | b => Some b
                                      end;
                            pairedItem := itemIndex |}) w1
                | Rejected e => (Rejected e, w1)
                | Pending => (Pending, w1)
                end)
               = (r, {| server := s;
                        log := log w ++ match match found with
                                              | inl e => inl e
                                              | inr parameters =>
                                                  inr (tool, options, parameters)
                                              end with
                                        | inr (tool0, options0, parameters) =>
                                            [item_call tool0 options0 parameters]
                                        | inl _ => []
                                        end |})
               /\ match r with
                  | Returned item =>
                      pairedItem item = itemIndex /\ is_json_error item = false
                      /\ exists read,
                          match found with
                          | inl e => inl e
                          | inr parameters => inr (tool, options, parameters)
                          end = inr read
                  | Rejected e =>
                      forall e0,
                        match found with
                        | inl e1 => inl e1
                        | inr parameters => inr (tool, options, parameters)
                        end = inl e0 -> e = Uncaught e0
                  | Pending => False
                  end).
  { intros [e|parameters]; unfold getNodeParameter.
    - exists (Rejected (Uncaught e)), (server w). unfold throw. rewrite world_eta.
      split; [reflexivity|]. now intros e0 [= <-].
    - unfold ret at 1, bind, callTool, item_call.
      destruct (sdk_callTool P _ _ _ (server w)) as [[e|result] s]; simpl.
      + exists (Rejected (Uncaught e)), s. split; [reflexivity|]. discriminate.
      + match goal with
        | |- context [splitContent ?c ?i ?n ?b ?k ?w0] =>
            pose proof (splitContent_world P c i n b k w0) as Hw;
            pose proof (splitContent_ends P c i n b k w0) as Hend;
            destruct (splitContent c i n b k w0) as [[split|e|] w1]
        end; simpl in Hw, Hend; subst w1.
        * eexists _, s. split; [reflexivity|]. simpl. repeat split. eauto.
        * eexists _, s. split; [reflexivity|]. discriminate.
        * now elim Hend. }
  destruct (String.eqb (ex_inputMode this) "manual"); apply Hfound.
Qed.

Lemma runItems_keeps_going :
  forall (P : Platform) this client,
    ex_continueOnFail this = true ->
    forall remaining itemIndex returnData (w : world P),
      exists data s,
        runItems this client (ex_inputMode this) remaining itemIndex returnData w
        = (Returned (returnData ++ data),
           {| server := s;
              log := log w ++ flat_map (item_calls this) (seq itemIndex remaining) |})
        /\ map pairedItem data = seq itemIndex remaining
        /\ (forall k e,
               k < remaining ->
               item_lookups this (itemIndex + k) = inl e ->
               nth_error data k = Some (error_record (Uncaught e) (itemIndex + k))).
Proof.
  intros P this client Hkeep remaining.
  induction remaining as [|remaining IH]; intros itemIndex returnData w; simpl.
  - exists [], (server w). rewrite !app_nil_r. destruct w.
    split; [reflexivity|]. split; [reflexivity|]. intros k e Hk. lia.
  - unfold bind, try_catch.
    destruct (runItem_outcome P this client itemIndex w) as [r [s [Hrun Hr]]].
    rewrite Hrun. destruct r as [item|e|]; [| |contradiction].
    + unfold ret at 1.
      destruct (IH (S itemIndex) (returnData ++ [item])
                   {| server := s; log := log w ++ item_calls this itemIndex |})
        as [data [s' [Hrest [Hidx Herr]]]].
      rewrite Hrest. exists (item :: data), s'. simpl.
      rewrite <- !app_assoc. simpl. destruct Hr as [Hpair [_ [read Hread]]].
      split; [reflexivity|]. split; [now rewrite Hpair, Hidx|].
      intros [|k] e Hk Hl.
      * rewrite Nat.add_0_r, Hread in Hl. discriminate.
      * simpl. replace (itemIndex + S k) with (S itemIndex + k) in * by lia.
        apply Herr; [lia|exact Hl].
    + rewrite Hkeep. unfold ret at 1.
      match goal with
      | |- context [runItems _ _ _ _ _ (returnData ++ [?item]) ?w1] =>
          destruct (IH (S itemIndex) (returnData ++ [item]) w1)
            as [data [s' [Hrest [Hidx Herr]]]];
          rewrite Hrest; exists (item :: data), s'
      end.
      simpl. rewrite <- !app_assoc. simpl.
      split; [reflexivity|]. split; [now rewrite Hidx|].
      intros [|k] e0 Hk Hl.
      * rewrite Nat.add_0_r in *. simpl. now rewrite (Hr e0 Hl).
      * simpl. replace (itemIndex + S k) with (S itemIndex + k) in * by lia.
        apply Herr; [lia|exact Hl].
Qed.


Lemma execute_connected :
  forall (P : Platform) this (w w1 : world P) url session,
    endpointUrl (execution_endpoint this) = Some url -> url <> "" ->
    connectMcpClient (headers (execution_endpoint this)) url
      (node_type (ex_node this)) (node_typeVersion (ex_node this)) w
    = (Returned (ResultOk session), w1) ->
    execute this w
    = (returnData <- runItems this session (ex_inputMode this) (ex_items this) 0 [] ;;
       ret [returnData]) w1.
Proof.
  intros P this w w1 url session Hurl Hne Hc.
  unfold execution_endpoint in *. unfold execute. rewrite Hurl.
  destruct url as [|c url]; [now elim Hne|]. simpl.
  unfold bind at 1. rewrite Hc. reflexivity.
Qed.

(** X23.  Without a resolved endpoint [execute] throws
    [Server URL is required in credentials] and does nothing else; when
    the connection fails it throws the error built for the kind of the
    failure, and no tool is called. *)
Theorem execute_needs_a_session :
  (forall (P : Platform) this (w : world P),
      Js.truthy (endpointUrl (execution_endpoint this)) = false ->
      execute this w
      = (Rejected (NodeOperationError "Server URL is required in credentials" None None),
         w))
  /\ (forall (P : Platform) this (w w1 : world P) url err,
        endpointUrl (execution_endpoint this) = Some url -> url <> "" ->
        connectMcpClient (headers (execution_endpoint this)) url
          (node_type (ex_node this)) (node_typeVersion (ex_node this)) w
        = (Returned (ResultError err), w1) ->
        execute this w = (Rejected (mapToNodeOperationError err), w1)
        /\ (log w1 = log w \/ log w1 = log w ++ [ConnectRejected])).
Proof.
  unfold execution_endpoint. split.
  - intros P this w H. unfold execute. now rewrite H.
  - intros P this w w1 url err Hurl Hne Hc. split.
    + unfold execute. rewrite Hurl.
      destruct url as [|c url]; [now elim Hne|]. simpl.
      unfold bind. now rewrite Hc.
    + destruct (connectMcpClient_log P
                  (headers (getAuthHeadersAndEndpoint (ex_credentials this)
                                                      (ex_authentication this)))
                  url (node_type (ex_node this)) (node_typeVersion (ex_node this)) w)
        as [r [w' [Hrun Hlog]]].
      rewrite Hc in Hrun. injection Hrun as <- <-. exact Hlog.
Qed.

Lemma execute_needs_a_session_witness :
  execute Fixtures.unconfigured_run (Scripted.start Scripted.healthy)
  = (Rejected (NodeOperationError "Server URL is required in credentials" None None),
     Scripted.start Scripted.healthy)
  /\ execute Scripted.one_item (Scripted.start Scripted.unauthorized)
     = (Rejected (mapToNodeOperationError
                    (classify (ThrownError (CodeNumber 401)
                                 "Error POSTing to endpoint (HTTP 401)"))),
        Build_world Scripted.platform Scripted.unauthorized [ConnectRejected]).
Proof.
  destruct execute_needs_a_session as [Hnone Hfail]. split.
  - apply (Hnone Scripted.platform). reflexivity.
  - apply (Hfail Scripted.platform Scripted.one_item
                 (Scripted.start Scripted.unauthorized) _ "https://x.test/mcp");
      [reflexivity|discriminate|reflexivity].
Defined.

(** X24.  With [continueOnFail], once connected, [execute] never throws:
    it returns one output for each input item, in order, each paired with
    the index of its item.  It calls the tool once for each item whose
    parameters can be read, in order, with the tool, the arguments and the
    timeout of that item; an item with a lookup that throws gets no tool
    call, and its output is the error record of what was thrown. *)
Theorem execute_continue_on_fail :
  forall (P : Platform) this (w w1 : world P) url session,
    ex_continueOnFail this = true ->
    endpointUrl (execution_endpoint this) = Some url -> url <> "" ->
    connectMcpClient (headers (execution_endpoint this)) url
      (node_type (ex_node this)) (node_typeVersion (ex_node this)) w
    = (Returned (ResultOk session), w1) ->
    exists data s,
      execute this w
      = (Returned [data],
         {| server := s;
            log := log w1 ++ flat_map (item_calls this) (seq 0 (ex_items this)) |})
      /\ map pairedItem data = seq 0 (ex_items this)
      /\ List.length data = ex_items this
      /\ (forall i e,
             i < ex_items this ->
             item_lookups this i = inl e ->
             nth_error data i = Some (error_record (Uncaught e) i)).
Proof.
  intros P this w w1 url session Hkeep Hurl Hne Hc.
  rewrite (execute_connected P this w w1 url session Hurl Hne Hc).
  destruct (runItems_keeps_going P this session Hkeep (ex_items this) 0 [] w1)
    as [data [s [Hrun [Hidx Herr]]]].
  exists data, s. unfold bind. rewrite Hrun. simpl.
  split; [reflexivity|]. split; [exact Hidx|]. split.
  - rewrite <- (length_map pairedItem), Hidx. apply length_seq.
  - exact Herr.
Qed.

Lemma execute_continue_on_fail_witness :
  exists data s,
    execute (Fixtures.unreadable_second true) (Scripted.start Scripted.healthy)
    = (Returned [data],
       Build_world Scripted.platform s
         [SessionOpened;
          CallToolCalled "update" (VObject [("id", VNumber 0)]) None;
          CallToolCalled "update" (VObject [("id", VNumber 2)]) None])
    /\ map pairedItem data = [0; 1; 2]
    /\ List.length data = 3
    /\ nth_error data 1
       = Some {| json := JsonError "Invalid expression" None;
                 binary := None;
                 pairedItem := 1 |}.
Proof.
  destruct (execute_continue_on_fail Scripted.platform
              (Fixtures.unreadable_second true)
              (Scripted.start Scripted.healthy)
              (Build_world Scripted.platform Scripted.healthy [SessionOpened])
              "https://x.test/mcp" {| client_name := "forest"; client_version := "1" |}
              eq_refl eq_refl ltac:(discriminate) eq_refl)
    as [data [s [Hrun [Hidx [Hlen Herr]]]]].
  exists data, s. split; [exact Hrun|]. split; [exact Hidx|]. split; [exact Hlen|].
  apply (Herr 1 (ThrownError CodeAbsent "Invalid expression")); [simpl; lia|reflexivity].
Defined.



(* ================================================================== *)
(** * The record node *)
(* ================================================================== *)







Example record_node_sample :
  RecordNode.execute Fixtures.record_get
  = inr [[{| RecordNode.json := RecordNode.GetJson "r1" "Record retrieved successfully";
             RecordNode.pairedItem := 0 |};
          {| RecordNode.json := RecordNode.ErrorJson (MessageString "No record id");
             RecordNode.pairedItem := 1 |}]].
Proof. reflexivity. Qed.
